(** * Ollama Chat backend ([main.py]): chat relay and file record store

    A shallow embedding of the request handlers of [main.py] and the
    properties of the design document that concern them.  Python values
    are embedded as follows.
    - A [str] is the list of its code points ([pystr]); [len], slicing and
      [+] are [length], [take] and [++], and [<] is the lexicographic order
      on code points.
    - A [dict] with string keys is a [gmap pystr _]; [d.get(k, v)] is
      [default v (d !! k)] and dict equality is equality of maps.
    - A call that may raise returns an [outcome].
    - The storage directory is the list of its files in the order in which
      the operating system enumerates them; a file is represented by what
      [open] and [json.load] make of it, a JSON value or an exception.
      What [json.dump] writes in full is read back by [json.load] as the
      value written.  The directory is flat: a path that has a separator
      addresses a place the model does not describe.
    - Values the handlers obtain from their environment (the backend's
      answers, a fresh UUID, the time, the decisions of the file system)
      are parameters. *)

From Stdlib Require Import ZArith Ascii String SpecFloat DecimalString.
From stdpp Require Import base option list gmap sorting.

Set Default Proof Using "Type".
#[local] Set Warnings "-register-all".

(** ** Python values *)

Module Py.

(** A Python [str]: a sequence of Unicode code points. *)
Definition pystr : Type := list N.

(** The [str] denoted by an ASCII literal of the source. *)
Definition lit (s : string) : pystr :=
  N_of_ascii <$> list_ascii_of_string s.

(** [s < t] on [str]: the first differing code point decides, and a proper
    prefix is smaller. *)
Fixpoint str_lt (s t : pystr) : bool :=
  match s, t with
  | _, [] => false
  | [], _ :: _ => true
  | a :: s', b :: t' => (a <? b)%N || ((a =? b)%N && str_lt s' t')
  end.

(** Truthiness of a [str]: only the empty string is falsy. *)
Definition truthy (s : pystr) : bool :=
  match s with [] => false | _ :: _ => true end.

(** The values [json.load] produces.  Numbers keep the distinction Python
    makes between [int] and [float] literals; no handler computes with
    them. *)
Inductive number : Type :=
  | PyInt (z : Z)
  | PyFloat (f : spec_float).

Inductive json : Type :=
  | JNull
  | JBool (b : bool)
  | JNum (n : number)
  | JStr (s : pystr)
  | JArr (items : list json)
  | JObj (fields : gmap pystr json).

Abbreviation dict := (gmap pystr json).

(** Exceptions that leave a handler or reach one of its [except] clauses.
    [Exception msg] is any other instance of [Exception], with [msg] the
    text of [str(e)]. *)
Inductive exn : Type :=
  | HTTPException (status_code : Z) (detail : pystr)
  | AttributeError
  | Exception (msg : pystr).

Inductive outcome (A : Type) : Type :=
  | Returned (a : A)
  | Raised (e : exn).
Arguments Returned {A} a.
Arguments Raised {A} e.

End Py.

Import Py.

(** ** Pydantic models *)

Module Message.
Record t : Type := { role : pystr; content : pystr }.
End Message.

Module ChatRequest.
Record t : Type := { model_key : pystr; messages : list Message.t }.
End ChatRequest.

Module SaveChatRequest.
Record t : Type := {
  id : option pystr;
  title : option pystr;
  model : pystr;
  messages : list Message.t
}.
End SaveChatRequest.

(** ** Model registry *)

Module Registry.

Definition MODELS : gmap pystr pystr :=
  {[ lit "general" := lit "qwen2.5:3b";
     lit "code" := lit "qwen2.5-coder:3b" ]}.

(** [MODELS.get(key, MODELS["general"])] *)
Definition get_model_name (key : pystr) : pystr :=
  default (MODELS !!! lit "general") (MODELS !! key).

(** [list_models]; the labels start with the characters U+1F4AC and
    U+1F4BB. *)
Definition list_models : dict :=
  {[ lit "models" :=
       JArr [ JObj {[ lit "key" := JStr (lit "general");
                      lit "name" := JStr (MODELS !!! lit "general");
                      lit "label" := JStr (128172%N :: lit " General") ]};
              JObj {[ lit "key" := JStr (lit "code");
                      lit "name" := JStr (MODELS !!! lit "code");
                      lit "label" := JStr (128187%N :: lit " Code") ]} ] ]}.

End Registry.

(** ** Chat relay: [chat_stream] and its generator [generate] *)

Module Relay.

(** An increment of the shape the client declares: a mapping whose
    ["message"] entry, when there is one, is a mapping whose ["content"]
    entry, when there is one, is a [str]. *)
Abbreviation chunk := (gmap pystr (gmap pystr pystr)).

(** An entry of an increment as the backend may deliver it: a mapping with
    [str] entries, or a value that is no container, such as [None], on
    which the test ["content" in ...] raises [TypeError], [msg] being the
    text of that exception. *)
Inductive entry : Type :=
  | Fields (m : gmap pystr pystr)
  | NotContainer (msg : pystr).

Abbreviation increment := (gmap pystr entry).

Definition well_formed (c : chunk) : increment := Fields <$> c.

(** What iterating over the object returned by [ollama.chat(..., stream=True)]
    does: it delivers an increment, is exhausted, or raises.  The streams
    considered end or raise after finitely many increments. *)
Inductive stream : Type :=
  | Exhausted
  | Item (c : increment) (rest : stream)
  | Fails (msg : pystr).

(** The backend client: [ollama.chat(model=, messages=, stream=True)] either
    raises an exception whose text is [msg] or returns a stream. *)
Inductive chat_call : Type :=
  | CallRaises (msg : pystr)
  | CallReturns (s : stream).

Class Backend : Type :=
  ollama_chat : pystr → list (gmap pystr pystr) → chat_call.

(** The generator object made by [generate()]: where its body stands. *)
Inductive gen_state : Type :=
  | Created
  | InLoop (s : stream)
  | Finished.

(** What resuming a generator gives its consumer. *)
Inductive resumed : Type :=
  | Yield (fragment : pystr) (st : gen_state)
  | StopIteration
  | Propagates (msg : pystr).

(** What a consumer that iterates a generator to its end has seen. *)
Inductive body : Type :=
  | Complete (fragments : list pystr)
  | Aborted (fragments : list pystr) (msg : pystr).

Definition body_cons (f : pystr) (b : body) : body :=
  match b with
  | Complete fs => Complete (f :: fs)
  | Aborted fs msg => Aborted (f :: fs) msg
  end.

(** [f"Error: {str(e)}"] *)
Definition error_fragment (msg : pystr) : pystr := lit "Error: " ++ msg.

(** The [try] block from the head of [for chunk in stream] up to its next
    [yield]: an increment without ["message"], or whose message is a
    mapping without ["content"], fails the [if] and the loop goes on; on a
    message that is no container the [if] raises. *)
Fixpoint resume_loop (s : stream) : resumed :=
  match s with
  | Exhausted => StopIteration
  | Fails msg => Propagates msg
  | Item c rest =>
      match c !! lit "message" with
      | Some (Fields message) =>
          match message !! lit "content" with
          | Some text => Yield text (InLoop rest)
          | None => resume_loop rest
          end
      | Some (NotContainer msg) => Propagates msg
      | None => resume_loop rest
      end
  end.

(** [except Exception as e: yield f"Error: {str(e)}"], after which the
    body of the generator is at its end. *)
Definition except_Exception (r : resumed) : resumed :=
  match r with
  | Propagates msg => Yield (error_fragment msg) Finished
  | _ => r
  end.

(** The generator closes over two variables of [chat_stream]. *)
Record closure : Type := {
  model_name : pystr;
  messages : list (gmap pystr pystr)
}.

Record StreamingResponse : Type := {
  body_iterator : closure;
  media_type : pystr
}.

(** [{"role": m.role, "content": m.content}] *)
Definition message_dict (m : Message.t) : gmap pystr pystr :=
  {[ lit "role" := Message.role m; lit "content" := Message.content m ]}.

(** [messages[-20:]] when [len(messages) > 20] *)
Definition keep_context (messages : list (gmap pystr pystr)) :
    list (gmap pystr pystr) :=
  if bool_decide (20 < length messages)
  then drop (length messages - 20) messages
  else messages.

(** [chat_stream]: the response carries the generator made by
    [generate()], which runs only when the response is iterated. *)
Definition chat_stream (request : ChatRequest.t) : StreamingResponse :=
  {| body_iterator :=
       {| model_name :=
            Registry.get_model_name (ChatRequest.model_key request);
          messages :=
            keep_context (message_dict <$> ChatRequest.messages request) |};
     media_type := lit "text/plain" |}.

(** The generator of the response to [request]. *)
Definition stream_of_chat (request : ChatRequest.t) : closure :=
  body_iterator (chat_stream request).

Section generate.
Context `{!Backend}.

(** One [next()] on the generator [r], whose body stands at [st]. *)
Definition generate (r : closure) (st : gen_state) : resumed :=
  match st with
  | Created =>
      except_Exception
        match ollama_chat (model_name r) (messages r) with
        | CallRaises msg => Propagates msg
        | CallReturns s => resume_loop s
        end
  | InLoop s => except_Exception (resume_loop s)
  | Finished => StopIteration
  end.

(** The transport iterating the generator, at most [fuel] resumptions. *)
Fixpoint iterate (fuel : nat) (r : closure) (st : gen_state) :
    option body :=
  match fuel with
  | O => None
  | S fuel' =>
      match generate r st with
      | Yield f st' => body_cons f <$> iterate fuel' r st'
      | StopIteration => Some (Complete [])
      | Propagates msg => Some (Aborted [] msg)
      end
  end.
End generate.

End Relay.

(** ** Record store: [get_chats], [get_chat], [save_chat] *)

Module Store.

(** A file of the storage directory, by what [open] followed by
    [json.load] does on it. *)
Inductive file : Type :=
  | Parsed (data : json)
  | Invalid (msg : pystr)      (* raises [json.JSONDecodeError], text [msg] *)
  | Unreadable (msg : pystr).  (* raises another exception, text [msg] *)

(** [SAVED_CHATS_DIR]: file names and files, in enumeration order. *)
Abbreviation directory := (list (pystr * file)).

Fixpoint lookup_file (name : pystr) (d : directory) : option file :=
  match d with
  | [] => None
  | e :: d' => if bool_decide (e.1 = name) then Some e.2 else lookup_file name d'
  end.

(** What the file system of the host decides: whether it lets a file of
    the directory be opened for writing ([open_error name] is the text of
    the exception [open] raises, for a name with a NUL character or too
    long a name for instance), and where its enumeration puts a file the
    directory did not have; and the texts of two exceptions: the one
    [json.dump] raises on a string the UTF-8 codec cannot encode, and the
    [JSONDecodeError] of the truncated file this leaves. *)
Class Host : Type := {
  open_error : pystr → option pystr;
  new_file_index : pystr → directory → nat;
  dump_error : dict → pystr;
  truncated_error : dict → pystr
}.

(** Writing an existing file: it is replaced where it stands. *)
Fixpoint overwrite_file (name : pystr) (f : file) (d : directory) :
    directory :=
  match d with
  | [] => []
  | e :: d' =>
      if bool_decide (e.1 = name) then (name, f) :: d'
      else e :: overwrite_file name f d'
  end.

(** Writing [name]: an existing file is replaced, a new one is enumerated
    where the file system puts it, among the others in their order. *)
Definition write_file {host : Host} (name : pystr) (f : file) (d : directory) :
    directory :=
  match lookup_file name d with
  | Some _ => overwrite_file name f d
  | None =>
      take (new_file_index name d) d ++ (name, f)
        :: drop (new_file_index name d) d
  end.

(** [f"{chat_id}.json"] *)
Definition record_name (chat_id : pystr) : pystr := chat_id ++ lit ".json".

(** A name matches the pattern ["*.json"] (names are compared as they
    are, letter case included). *)
Definition matches_json (name : pystr) : bool :=
  bool_decide (lit ".json" `suffix_of` name).

(** [SAVED_CHATS_DIR.glob("*.json")] *)
Definition glob_json (d : directory) : directory :=
  filter (λ e, matches_json e.1) d.

(** [name.rfind('.')] *)
Fixpoint rfind_dot (name : pystr) : option nat :=
  match name with
  | [] => None
  | c :: name' =>
      match rfind_dot name' with
      | Some i => Some (S i)
      | None => if (c =? 46)%N then Some 0 else None
      end
  end.

(** [filepath.stem]: the name up to its last dot, when that dot is neither
    the first nor the last character. *)
Definition stem (name : pystr) : pystr :=
  match rfind_dot name with
  | Some i =>
      if bool_decide (0 < i) && bool_decide (i < length name - 1)
      then take i name else name
  | None => name
  end.

(** The entry [get_chats] appends for a file holding the object [data]. *)
Definition summary (name : pystr) (data : dict) : dict :=
  {[ lit "id" := default (JStr (stem name)) (data !! lit "id");
     lit "title" := default (JStr (lit "Untitled")) (data !! lit "title");
     lit "timestamp" := default (JStr (lit "")) (data !! lit "timestamp");
     lit "model" := default (JStr (lit "general")) (data !! lit "model") ]}.

(** The loop of [get_chats] over the matching files.  [data.get] exists on
    a [dict] only, and never raises [KeyError]; of what [open] and
    [json.load] raise, the handler passes over [JSONDecodeError] alone. *)
Fixpoint collect (entries : directory) (chats : list dict) :
    outcome (list dict) :=
  match entries with
  | [] => Returned chats
  | (name, Parsed (JObj data)) :: rest =>
      collect rest (chats ++ [summary name data])
  | (_, Parsed _) :: _ => Raised AttributeError
  | (_, Invalid _) :: rest => collect rest chats
  | (_, Unreadable msg) :: _ => Raised (Exception msg)
  end.

(** [x.get("timestamp", "")] *)
Definition sort_key (x : dict) : json :=
  default (JStr (lit "")) (x !! lit "timestamp").

Definition str_key (x : dict) : option pystr :=
  match sort_key x with JStr s => Some s | _ => None end.

(** Stable insertion in a list in descending order of keys: [x] goes before
    the first element whose key is not greater than its own. *)
Fixpoint insert_desc (k : pystr) (x : dict) (l : list (pystr * dict)) :
    list (pystr * dict) :=
  match l with
  | [] => [(k, x)]
  | (k', y) :: l' =>
      if str_lt k k' then (k', y) :: insert_desc k x l'
      else (k, x) :: l
  end.

(** [list.sort(key=..., reverse=True)] on [str] keys: the stable sort in
    descending order, elements with equal keys keeping their order. *)
Definition sort_keyed (l : list (pystr * dict)) : list (pystr * dict) :=
  foldr (λ e acc, insert_desc e.1 e.2 acc) [] l.

Definition sort_desc (l : list (pystr * dict)) : list dict :=
  (sort_keyed l).*2.

Definition int_key (x : dict) : option Z :=
  match sort_key x with JNum (PyInt z) => Some z | _ => None end.

(** The same sort on [int] keys, which Python orders by value. *)
Fixpoint insert_desc_int (k : Z) (x : dict) (l : list (Z * dict)) :
    list (Z * dict) :=
  match l with
  | [] => [(k, x)]
  | (k', y) :: l' =>
      if (k <? k')%Z then (k', y) :: insert_desc_int k x l'
      else (k, x) :: l
  end.

Definition sort_keyed_int (l : list (Z * dict)) : list (Z * dict) :=
  foldr (λ e acc, insert_desc_int e.1 e.2 acc) [] l.

Definition sort_desc_int (l : list (Z * dict)) : list dict :=
  (sort_keyed_int l).*2.

(** [list.sort] on other keys (floats and booleans are ordered by value
    too, most other mixtures raise [TypeError]) is left to a parameter, of
    which only this is used: a sort that returns has rearranged the
    list. *)
Class KeySort : Type := {
  sort_other_keys : list dict → outcome (list dict);
  sort_other_keys_perm chats sorted :
    sort_other_keys chats = Returned sorted → sorted ≡ₚ chats
}.

Section get_chats.
Context `{!KeySort}.

(** [chats.sort(key=lambda x: x.get("timestamp", ""), reverse=True)];
    fewer than two elements are not compared at all. *)
Definition sort_chats (chats : list dict) : outcome (list dict) :=
  match mapM (λ x, (., x) <$> str_key x) chats with
  | Some keyed => Returned (sort_desc keyed)
  | None =>
      match mapM (λ x, (., x) <$> int_key x) chats with
      | Some keyed => Returned (sort_desc_int keyed)
      | None =>
          if bool_decide (length chats ≤ 1) then Returned chats
          else sort_other_keys chats
      end
  end.

Definition get_chats (d : directory) : outcome (list dict) :=
  match collect (glob_json d) [] with
  | Returned chats => sort_chats chats
  | Raised e => Raised e
  end.
End get_chats.

Definition get_chat (chat_id : pystr) (d : directory) : outcome json :=
  match lookup_file (record_name chat_id) d with
  | None => Raised (HTTPException 404 (lit "Chat not found"))
  | Some (Parsed data) => Returned data
  | Some (Invalid msg) | Some (Unreadable msg) =>
      Raised (HTTPException 500 msg)
  end.

(** [m.dict()] of a message *)
Definition message_json (m : Message.t) : json :=
  JObj {[ lit "role" := JStr (Message.role m);
          lit "content" := JStr (Message.content m) ]}.

(** The title [save_chat] settles on; [None] is Python's [None]. *)
Definition chat_title (chat : SaveChatRequest.t) : option pystr :=
  let title := SaveChatRequest.title chat in
  if negb (from_option truthy false title)
     && bool_decide (SaveChatRequest.messages chat ≠ [])
  then
    let user_msgs :=
      filter (λ m, Message.role m = lit "user")
             (SaveChatRequest.messages chat) in
    match user_msgs with
    | m :: _ =>
        let first_msg := Message.content m in
        Some (if bool_decide (50 < length first_msg)
              then take 50 first_msg ++ lit "..." else first_msg)
    | [] => Some (lit "Untitled Chat")
    end
  else title.

Definition opt_json (o : option pystr) : json :=
  match o with Some s => JStr s | None => JNull end.

(** [chat.id if chat.id else str(uuid.uuid4())] *)
Definition save_chat_id (uuid4 : pystr) (chat : SaveChatRequest.t) : pystr :=
  match SaveChatRequest.id chat with
  | Some i => if truthy i then i else uuid4
  | None => uuid4
  end.

(** The dictionary [data] of [save_chat]. *)
Definition record_data (uuid4 now : pystr) (chat : SaveChatRequest.t) : dict :=
  {[ lit "id" := JStr (save_chat_id uuid4 chat);
     lit "title" := opt_json (chat_title chat);
     lit "model" := JStr (SaveChatRequest.model chat);
     lit "timestamp" := JStr now;
     lit "messages" := JArr (message_json <$> SaveChatRequest.messages chat) ]}.

(** [{"id": chat_id, "title": title}] *)
Definition save_response (uuid4 : pystr) (chat : SaveChatRequest.t) : dict :=
  {[ lit "id" := JStr (save_chat_id uuid4 chat);
     lit "title" := opt_json (chat_title chat) ]}.

(** A [str] the UTF-8 codec of the file encodes: one without surrogate
    code points (U+D800 to U+DFFF). *)
Definition encodable (s : pystr) : bool :=
  forallb (λ c, (c <? 55296)%N || (57343 <? c)%N) s.

(** [json.dump(data, f, ensure_ascii=False, indent=2)] writes all of
    [data]: every string of it is encodable. *)
Definition dumpable (uuid4 now : pystr) (chat : SaveChatRequest.t) : bool :=
  encodable (save_chat_id uuid4 chat)
  && from_option encodable true (chat_title chat)
  && encodable (SaveChatRequest.model chat)
  && encodable now
  && forallb (λ m, encodable (Message.role m) && encodable (Message.content m))
             (SaveChatRequest.messages chat).

(** [SAVED_CHATS_DIR / name] is a file of the directory itself: the name
    has no separator. *)
Definition in_directory (name : pystr) : bool :=
  negb (bool_decide (47%N ∈ name)).

(** [save_chat], given the values [str(uuid.uuid4())] and
    [datetime.now().isoformat()] take in this call: the outcome and the
    directory afterwards.  The result is [None] for an id with a
    separator, whose file is not one of the directory.  When [open]
    raises nothing is written; when [json.dump] raises the file is left
    truncated. *)
Definition save_chat {host : Host} (uuid4 now : pystr) (chat : SaveChatRequest.t)
    (d : directory) : option (outcome dict * directory) :=
  let name := record_name (save_chat_id uuid4 chat) in
  let data := record_data uuid4 now chat in
  if in_directory name then
    Some
      match open_error name with
      | Some msg => (Raised (Exception msg), d)
      | None =>
          if dumpable uuid4 now chat
          then (Returned (save_response uuid4 chat),
                write_file name (Parsed (JObj data)) d)
          else (Raised (Exception (dump_error data)),
                write_file name (Invalid (truncated_error data)) d)
      end
  else None.

(** [filepath.unlink()]: afterwards the directory has no file of that
    name. *)
Definition remove_file (name : pystr) (d : directory) : directory :=
  filter (λ e, e.1 ≠ name) d.

(** [delete_chat]: the outcome and the directory afterwards.  Like that of
    [get_chat], its id is one segment of the URL and has no separator. *)
Definition delete_chat (chat_id : pystr) (d : directory) :
    outcome dict * directory :=
  match lookup_file (record_name chat_id) d with
  | Some _ =>
      (Returned {[ lit "status" := JStr (lit "success") ]},
       remove_file (record_name chat_id) d)
  | None => (Raised (HTTPException 404 (lit "Chat not found")), d)
  end.

End Store.

(** ** Vocabulary of the specification *)

Module RelaySpec.
Import Relay.

(** The text an increment carries, if it carries one. *)
Definition increment_text (c : chunk) : option pystr :=
  c !! lit "message" ≫= λ message, message !! lit "content".

(** A backend stream that delivers the increments [incs] and then is
    exhausted ([failure = None]) or raises ([failure = Some msg]). *)
Definition raw_stream (incs : list increment) (failure : option pystr) :
    stream :=
  foldr Item (from_option Fails Exhausted failure) incs.

(** The same for increments of the declared shape. *)
Definition stream_of (chunks : list chunk) (failure : option pystr) : stream :=
  raw_stream (well_formed <$> chunks) failure.

(** The backend call fails with [msg] after delivering [chunks]: on
    invocation, before any increment, or while the stream is iterated. *)
Inductive fails_after (msg : pystr) : list chunk → chat_call → Prop :=
  | fails_on_invocation : fails_after msg [] (CallRaises msg)
  | fails_mid_stream chunks :
      fails_after msg chunks (CallReturns (stream_of chunks (Some msg))).

(** The increment [{"message": {"role": "assistant", "content": text}}]. *)
Definition content_chunk (text : pystr) : chunk :=
  {[ lit "message" :=
       {[ lit "role" := lit "assistant"; lit "content" := text ]} ]}.

(** An increment with a message that has no content, and one with no
    message at all. *)
Definition role_only_chunk : chunk :=
  {[ lit "message" := {[ lit "role" := lit "assistant" ]} ]}.
Definition done_chunk : chunk :=
  {[ lit "done" := {[ lit "reason" := lit "stop" ]} ]}.

(** An increment whose message is [None]. *)
Definition null_message_chunk : increment :=
  {[ lit "message" :=
       NotContainer (lit "argument of type 'NoneType' is not iterable") ]}.

(** The fragment an increment would contribute if a missing content were
    read as the empty content. *)
Definition content_or_empty (c : increment) : pystr :=
  match c !! lit "message" with
  | Some (Fields message) => default [] (message !! lit "content")
  | _ => []
  end.

(** The dictionary [d] carries the role and the content of the message
    [m], and nothing else. *)
Definition carries (m : Message.t) (d : gmap pystr pystr) : Prop :=
  d !! lit "role" = Some (Message.role m) ∧
  d !! lit "content" = Some (Message.content m) ∧
  dom d = {[ lit "role"; lit "content" ]}.

(** A request of [n] user messages numbered from [k]. *)
Fixpoint numbered (k n : nat) : list Message.t :=
  match n with
  | O => []
  | S n' =>
      {| Message.role := lit "user"; Message.content := [N.of_nat k] |}
      :: numbered (S k) n'
  end.

Definition short_request : ChatRequest.t :=
  {| ChatRequest.model_key := lit "general";
     ChatRequest.messages := numbered 0 2 |}.

Definition long_request : ChatRequest.t :=
  {| ChatRequest.model_key := lit "code";
     ChatRequest.messages := numbered 0 21 |}.

(** A backend that delivers "Hel", "lo" and then raises "boom". *)
Definition breaking_backend : Backend :=
  λ _ _, CallReturns
    (stream_of [content_chunk (lit "Hel"); content_chunk (lit "lo")]
               (Some (lit "boom"))).

(** A backend whose stream has increments without content. *)
Definition sparse_backend : Backend :=
  λ _ _, CallReturns
    (stream_of [role_only_chunk; content_chunk (lit "Hi"); done_chunk] None).

(** A backend whose stream delivers a message that is [None]. *)
Definition null_backend : Backend :=
  λ _ _, CallReturns
    (raw_stream [well_formed (content_chunk (lit "Hel")); null_message_chunk;
                 well_formed (content_chunk (lit "lo"))] None).

(** A backend that delivers one increment whose message has no content. *)
Definition role_only_backend : Backend :=
  λ _ _, CallReturns (raw_stream [well_formed role_only_chunk] None).

(** The statement of C8 as first given: every increment contributes a
    fragment, the empty one when its content is missing. *)
Definition missing_read_as_empty `{!Backend} (request : ChatRequest.t)
    (incs : list increment) : Prop :=
  ollama_chat (model_name (stream_of_chat request))
              (messages (stream_of_chat request))
    = CallReturns (raw_stream incs None) →
  ∃ n, ∀ fuel, n ≤ fuel →
    iterate fuel (stream_of_chat request) Created
      = Some (Complete (content_or_empty <$> incs)).

End RelaySpec.

Module StoreSpec.
Import Store.

(** *** Messages and titles *)

Definition says (role content : string) : Message.t :=
  {| Message.role := lit role; Message.content := lit content |}.

(** [m] is the first message of [msgs] whose role is "user". *)
Definition first_user (msgs : list Message.t) (m : Message.t) : Prop :=
  ∃ before after,
    msgs = before ++ m :: after ∧
    Forall (λ m', Message.role m' ≠ lit "user") before ∧
    Message.role m = lit "user".

Definition no_user (msgs : list Message.t) : Prop :=
  Forall (λ m, Message.role m ≠ lit "user") msgs.

(** The title [save_chat] settles on and puts in its response; it depends
    neither on the time nor on the directory. *)
Definition reported_title (uuid4 now : pystr) (chat : SaveChatRequest.t)
    (d : directory) : option json :=
  save_response uuid4 chat !! lit "title".

(** The derivation rule for titles: [title] follows the first user message
    if there is one, and is the placeholder if there is none and the
    message list satisfies [placeholder_when]. *)
Definition title_rule (placeholder_when : list Message.t → Prop)
    (chat : SaveChatRequest.t) (title : json) : Prop :=
  (∀ m, first_user (SaveChatRequest.messages chat) m →
     (length (Message.content m) ≤ 50 → title = JStr (Message.content m)) ∧
     (50 < length (Message.content m) →
        title = JStr (take 50 (Message.content m) ++ lit "..."))) ∧
  (no_user (SaveChatRequest.messages chat) →
   placeholder_when (SaveChatRequest.messages chat) →
   title = JStr (lit "Untitled Chat")).

(** *** Saving and loading *)

(** A [str] without surrogate code points. *)
Definition no_surrogates (s : pystr) : Prop :=
  Forall (λ c, (c < 55296 ∨ 57343 < c)%N) s.

(** A request the store can hold: the id it is saved under has no path
    separator, the host lets the file of that id be opened, and no string
    that goes into the record has a surrogate code point. *)
Definition storable {host : Host} (uuid4 now : pystr)
    (chat : SaveChatRequest.t) : Prop :=
  (47%N ∉ save_chat_id uuid4 chat) ∧
  open_error (record_name (save_chat_id uuid4 chat)) = None ∧
  no_surrogates (save_chat_id uuid4 chat) ∧
  no_surrogates now ∧
  no_surrogates (SaveChatRequest.model chat) ∧
  (∀ t, SaveChatRequest.title chat = Some t → no_surrogates t) ∧
  Forall (λ m, no_surrogates (Message.role m)
               ∧ no_surrogates (Message.content m))
         (SaveChatRequest.messages chat).

(** The JSON value [item] is an object with the role and the content of
    [m], and nothing else. *)
Definition holds (m : Message.t) (item : json) : Prop :=
  ∃ o,
    item = JObj o ∧
    o !! lit "role" = Some (JStr (Message.role m)) ∧
    o !! lit "content" = Some (JStr (Message.content m)) ∧
    dom o = {[ lit "role"; lit "content" ]}.

(** Saving [chat] responds, and loading by the id of the response gives
    back a record with the messages of [chat], one by one and in their
    order, its model, its id if it had one, and its title if it had one
    that satisfies [kept]. *)
Definition round_trips {host : Host} (kept : pystr → Prop)
    (uuid4 now : pystr) (chat : SaveChatRequest.t) (d : directory) : Prop :=
  ∃ response d' chat_id data items,
    save_chat uuid4 now chat d = Some (Returned response, d') ∧
    response !! lit "id" = Some (JStr chat_id) ∧
    get_chat chat_id d' = Returned (JObj data) ∧
    data !! lit "messages" = Some (JArr items) ∧
    Forall2 holds (SaveChatRequest.messages chat) items ∧
    data !! lit "model" = Some (JStr (SaveChatRequest.model chat)) ∧
    (∀ i, SaveChatRequest.id chat = Some i → i ≠ [] →
       data !! lit "id" = Some (JStr i)) ∧
    (∀ t, SaveChatRequest.title chat = Some t → kept t →
       data !! lit "title" = Some (JStr t)) ∧
    dom data = {[ lit "id"; lit "title"; lit "model"; lit "timestamp";
                  lit "messages" ]}.

(** A file [<chat_id>.json] exists in the directory. *)
Definition file_exists (chat_id : pystr) (d : directory) : Prop :=
  record_name chat_id ∈ d.*1.

(** *** Listing *)

(** [s >= t] on [str]. *)
Definition str_ge (s t : pystr) : Prop := ¬ str_lt s t.

(** The summary a file contributes to the listing: any file that holds a
    JSON object does. *)
Definition summary_of (e : pystr * file) : option dict :=
  match e.2 with
  | Parsed (JObj data) => Some (summary e.1 data)
  | _ => None
  end.

(** A file that holds an object with all four summarised fields. *)
Definition complete (e : pystr * file) : bool :=
  match e.2 with
  | Parsed (JObj data) =>
      bool_decide (is_Some (data !! lit "id"))
      && bool_decide (is_Some (data !! lit "title"))
      && bool_decide (is_Some (data !! lit "timestamp"))
      && bool_decide (is_Some (data !! lit "model"))
  | _ => false
  end.

Definition complete_summary_of (e : pystr * file) : option dict :=
  if complete e then summary_of e else None.

(** The listing succeeds and consists, in some order, of the summaries
    [kept] selects among the files matching "*.json". *)
Definition lists `{!KeySort} (kept : pystr * file → option dict)
    (d : directory) : Prop :=
  ∃ chats,
    get_chats d = Returned chats ∧ chats ≡ₚ omap kept (glob_json d).

(** A file that either is not valid JSON or holds a JSON object. *)
Definition object_or_invalid (e : pystr * file) : Prop :=
  match e.2 with
  | Parsed (JObj _) | Invalid _ => True
  | _ => False
  end.

(** A file whose timestamp, if it holds an object that has one, is a
    string. *)
Definition str_stamped (e : pystr * file) : Prop :=
  match e.2 with
  | Parsed (JObj data) =>
      match data !! lit "timestamp" with
      | None | Some (JStr _) => True
      | Some _ => False
      end
  | _ => True
  end.

(** A summary with a string under "timestamp". *)
Definition str_stamp (x : dict) : Prop :=
  ∃ s, x !! lit "timestamp" = Some (JStr s).

(** The text of a timestamp: a string is its own text, an integer is
    written in decimal. *)
Definition stamp_text (j : json) : option pystr :=
  match j with
  | JStr s => Some s
  | JNum (PyInt z) => Some (lit (NilZero.string_of_int (Z.to_int z)))
  | _ => None
  end.

(** The listing is in descending order of the texts of its timestamps,
    compared as strings. *)
Definition sorted_by_text `{!KeySort} (d : directory) : Prop :=
  ∀ chats,
    get_chats d = Returned chats →
    ∃ stamps,
      mapM (λ c : dict, (c !! lit "timestamp") ≫= stamp_text) chats
        = Some stamps ∧
      Sorted str_ge stamps.

(** Every listed id is a string that names a file of the directory. *)
Definition ids_name_files `{!KeySort} (d : directory) : Prop :=
  ∀ chats c,
    get_chats d = Returned chats → c ∈ chats →
    ∃ i, c !! lit "id" = Some (JStr i) ∧ file_exists i d.

(** *** Sample data *)

(** A sort that gives up on keys that are not strings. *)
Definition str_only : KeySort.
Proof.
  refine {| sort_other_keys :=
              λ _, Raised (Exception (lit "'<' not supported")) |}.
  discriminate.
Defined.

(** A host that refuses names with a NUL character and enumerates a new
    file first. *)
Definition sample_host : Host :=
  {| open_error name :=
       if bool_decide (0%N ∈ name) then Some (lit "embedded null byte")
       else None;
     new_file_index _ _ := 0;
     dump_error _ := lit "'utf-8' codec can't encode: surrogates not allowed";
     truncated_error _ := lit "Expecting property name" |}.

Definition record (stamp : string) : file :=
  Parsed (JObj {[ lit "title" := JStr (lit "Notes");
                  lit "timestamp" := JStr (lit stamp) ]}).

Definition three_records : directory :=
  [ (lit "b.json", record "2024-05-02T09:00:00");
    (lit "broken.json", Invalid (lit "Expecting value"));
    (lit "c.json", record "2024-05-03T09:00:00");
    (lit "notes.txt", Unreadable (lit "invalid start byte"));
    (lit "a.json", record "2024-05-01T09:00:00") ].

Definition listed (name stamp : string) : dict :=
  {[ lit "id" := JStr (lit name);
     lit "title" := JStr (lit "Notes");
     lit "timestamp" := JStr (lit stamp);
     lit "model" := JStr (lit "general") ]}.

Definition three_listed : list dict :=
  [ listed "c" "2024-05-03T09:00:00";
    listed "b" "2024-05-02T09:00:00";
    listed "a" "2024-05-01T09:00:00" ].

Definition int_record (stamp : Z) : file :=
  Parsed (JObj {[ lit "title" := JStr (lit "Notes");
                  lit "timestamp" := JNum (PyInt stamp) ]}).

Definition int_listed (name : string) (stamp : Z) : dict :=
  {[ lit "id" := JStr (lit name);
     lit "title" := JStr (lit "Notes");
     lit "timestamp" := JNum (PyInt stamp);
     lit "model" := JStr (lit "general") ]}.

Definition numeric_stamps : directory :=
  [ (lit "a.json", int_record 9); (lit "b.json", int_record 10) ].

Definition bare_record : directory := [ (lit "a.json", Parsed (JObj ∅)) ].

Definition renamed_record : directory :=
  [ (lit "a.json", Parsed (JObj {[ lit "id" := JStr (lit "b") ]})) ].

Definition sample_uuid : pystr := lit "3f2b0c9e-7d41-4c1a-9a57-0b6a1c2d3e4f".
Definition sample_now : pystr := lit "2024-05-01T12:00:00.000000".

Definition titled_chat : SaveChatRequest.t :=
  {| SaveChatRequest.id := Some (lit "a");
     SaveChatRequest.title := Some (lit "Greetings");
     SaveChatRequest.model := lit "general";
     SaveChatRequest.messages := [says "user" "hi"; says "assistant" "hello"] |}.

Definition empty_title_chat : SaveChatRequest.t :=
  {| SaveChatRequest.id := Some (lit "a");
     SaveChatRequest.title := Some (lit "");
     SaveChatRequest.model := lit "general";
     SaveChatRequest.messages := [says "user" "hi"] |}.

Definition long_chat : SaveChatRequest.t :=
  {| SaveChatRequest.id := None;
     SaveChatRequest.title := None;
     SaveChatRequest.model := lit "code";
     SaveChatRequest.messages :=
       [says "system" "be brief";
        says "user"
          "Hello, how does this work and can you explain it in detail please?"] |}.

Definition fifty_chat : SaveChatRequest.t :=
  {| SaveChatRequest.id := None;
     SaveChatRequest.title := None;
     SaveChatRequest.model := lit "general";
     SaveChatRequest.messages :=
       [says "user" "Exactly fifty characters long, this sentence is!!!"] |}.

(** A request whose one message ends in a lone surrogate (U+D800). *)
Definition surrogate_chat : SaveChatRequest.t :=
  {| SaveChatRequest.id := Some (lit "a");
     SaveChatRequest.title := Some (lit "Greetings");
     SaveChatRequest.model := lit "general";
     SaveChatRequest.messages :=
       [ {| Message.role := lit "user";
            Message.content := lit "hi" ++ [55296%N] |} ] |}.

Definition no_message_chat : SaveChatRequest.t :=
  {| SaveChatRequest.id := None;
     SaveChatRequest.title := None;
     SaveChatRequest.model := lit "general";
     SaveChatRequest.messages := [] |}.

End StoreSpec.

(** ** Further vocabulary: registry, deletion, listing order *)

Module MoreSpec.
Import Relay RelaySpec Store StoreSpec.

(** The entries of the list [list_models] returns under "models". *)
Definition model_entries : list dict :=
  match Registry.list_models !! lit "models" with
  | Some (JArr items) =>
      omap (λ j, match j with JObj o => Some o | _ => None end) items
  | _ => []
  end.

(** The id [save_chat] settles on and puts in its response; it depends
    neither on the time nor on the directory. *)
Definition reported_id (uuid4 now : pystr) (chat : SaveChatRequest.t)
    (d : directory) : option json :=
  save_response uuid4 chat !! lit "id".

(** The timestamps under which the listing sorts the files it summarises,
    in enumeration order. *)
Definition stamps_of (d : directory) : list pystr :=
  omap str_key (omap summary_of (glob_json d)).


(** What the listing raises on a file it does not expect. *)
Definition listing_error (f : file) : exn :=
  match f with
  | Unreadable msg => Exception msg
  | _ => AttributeError
  end.

(** *** Sample data *)

Definition echo_error_backend : Backend :=
  λ _ _, CallReturns
    (stream_of [content_chunk (lit "Hel"); content_chunk (lit "lo");
                content_chunk (lit "Error: boom")] None).

Definition two_files : directory :=
  [ (lit "a.json", record "2024-05-01T09:00:00");
    (lit "b.json", record "2024-05-02T09:00:00") ].

Definition same_stamp_files : directory :=
  [ (lit "x.json", record "2024-05-01T09:00:00");
    (lit "broken.json", Invalid (lit "Expecting value"));
    (lit "y.json", record "2024-05-01T09:00:00") ].

Definition array_file : directory :=
  [ (lit "a.json", record "2024-05-01T09:00:00");
    (lit "list.json", Parsed (JArr [])) ].


End MoreSpec.

(** ** The chat relay: facts *)

Module RelayFacts.
Import Relay RelaySpec.

Section with_backend.
Context `{!Backend}.
Implicit Types (r : closure) (chunks : list chunk).

Lemma generate_in_loop r c rest :
  generate r (InLoop (Item (well_formed c) rest)) =
    match increment_text c with
    | Some text => Yield text (InLoop rest)
    | None => generate r (InLoop rest)
    end.
Proof.
  unfold increment_text, well_formed; simpl. rewrite lookup_fmap.
  destruct (c !! lit "message") as [message|]; simpl; [|done].
  by destruct (message !! lit "content").
Qed.

Lemma iterate_in_loop fuel r c rest :
  iterate fuel r (InLoop (Item (well_formed c) rest)) =
    match increment_text c with
    | Some text =>
        match fuel with
        | O => None
        | S fuel' => body_cons text <$> iterate fuel' r (InLoop rest)
        end
    | None => iterate fuel r (InLoop rest)
    end.
Proof.
  destruct fuel as [|fuel]; [by destruct (increment_text c)|].
  cbn [iterate]. rewrite generate_in_loop.
  by destruct (increment_text c).
Qed.

(** Iterating over delivered increments: those with text are yielded in
    order, each for one resumption; the others cost nothing. *)
Lemma iterate_chunks fuel r chunks tail :
  iterate (length (omap increment_text chunks) + fuel) r
          (InLoop (foldr Item tail (well_formed <$> chunks))) =
    (λ b, foldr body_cons b (omap increment_text chunks))
      <$> iterate fuel r (InLoop tail).
Proof.
  induction chunks as [|c chunks IH];
    cbn [foldr omap list_omap fmap list_fmap].
  - cbn [length Nat.add]. by destruct (iterate fuel r (InLoop tail)).
  - rewrite iterate_in_loop.
    destruct (increment_text c) as [text|]; [|done].
    cbn [length Nat.add]. rewrite IH.
    by destruct (iterate fuel r (InLoop tail)).
Qed.

Lemma foldr_body_cons fs gs :
  foldr body_cons (Complete gs) fs = Complete (fs ++ gs).
Proof. induction fs as [|f fs IH]; simpl; [done|by rewrite IH]. Qed.

Lemma iterate_ending fuel r failure :
  2 ≤ fuel →
  iterate fuel r (InLoop (from_option Fails Exhausted failure)) =
    Some (Complete (error_fragment <$> option_list failure)).
Proof.
  intros Hfuel. destruct fuel as [|[|fuel]]; [lia..|].
  by destruct failure.
Qed.

Lemma iterate_stream r chunks failure fuel :
  length (omap increment_text chunks) + 2 ≤ fuel →
  iterate fuel r (InLoop (stream_of chunks failure)) =
    Some (Complete (omap increment_text chunks
                    ++ (error_fragment <$> option_list failure))).
Proof.
  intros Hfuel.
  replace fuel with (length (omap increment_text chunks)
                     + (fuel - length (omap increment_text chunks))) by lia.
  unfold stream_of, raw_stream. rewrite iterate_chunks, iterate_ending by lia.
  simpl. by rewrite foldr_body_cons.
Qed.

Lemma iterate_created r s fuel :
  ollama_chat (model_name r) (messages r) = CallReturns s →
  iterate fuel r Created = iterate fuel r (InLoop s).
Proof. intros Hcall. destruct fuel; simpl; [done|]. by rewrite Hcall. Qed.

Lemma generate_never_propagates r st msg : generate r st ≠ Propagates msg.
Proof.
  destruct st as [|s|]; simpl; [| |done].
  - destruct (ollama_chat _ _) as [?|s]; [done|].
    by destruct (resume_loop s).
  - by destruct (resume_loop s).
Qed.
End with_backend.

Lemma increment_text_content text :
  increment_text (content_chunk text) = Some text.
Proof.
  unfold increment_text, content_chunk.
  rewrite lookup_singleton_eq. simpl.
  by rewrite lookup_insert_ne, lookup_singleton_eq.
Qed.

Lemma text_of_content_chunks (fs : list pystr) :
  omap increment_text (content_chunk <$> fs) = fs.
Proof.
  induction fs as [|f fs IH]; [done|].
  cbn [fmap list_fmap omap list_omap].
  by rewrite increment_text_content, IH.
Qed.

Lemma carries_message_dict m : carries m (message_dict m).
Proof.
  unfold carries, message_dict. split_and!.
  - by rewrite lookup_insert_eq.
  - by rewrite lookup_insert_ne, lookup_singleton_eq.
  - by rewrite dom_insert_L, dom_singleton_L.
Qed.

Lemma carries_fmap (msgs : list Message.t) :
  Forall2 carries msgs (message_dict <$> msgs).
Proof.
  induction msgs as [|m msgs IH]; [constructor|].
  rewrite fmap_cons. constructor; [apply carries_message_dict|done].
Qed.

(** C1. Whatever the message history and the model key: when the backend
    call raises an exception with text [msg], be it on invocation or while
    its stream is iterated after the increments [chunks], the consumer of
    the response receives exactly the text fragments of [chunks], in order,
    then the single fragment "Error: " followed by [msg], and then the end
    of the sequence; no resumption of the generator raises. *)
Theorem backend_failure_in_band `{!Backend} (request : ChatRequest.t)
    (chunks : list chunk) (msg : pystr) :
  fails_after msg chunks
    (ollama_chat (model_name (stream_of_chat request))
                 (messages (stream_of_chat request))) →
  (∃ n, ∀ fuel, n ≤ fuel →
     iterate fuel (stream_of_chat request) Created =
       Some (Complete (omap increment_text chunks ++ [lit "Error: " ++ msg])))
  ∧ (∀ st m, generate (stream_of_chat request) st ≠ Propagates m).
Proof.
  set (r := stream_of_chat request). intros Hfail.
  split; [|intros; apply generate_never_propagates].
  remember (ollama_chat (model_name r) (messages r)) as call eqn:Hcall.
  destruct Hfail as [|chunks].
  - exists 2. intros [|[|fuel]] Hfuel; [lia..|].
    cbn [iterate]. unfold generate at 1. by rewrite <-Hcall.
  - exists (length (omap increment_text chunks) + 2). intros fuel Hfuel.
    rewrite (iterate_created r _ fuel (eq_sym Hcall)).
    by rewrite iterate_stream.
Qed.

Lemma backend_failure_in_band_witness :
  ∃ n, ∀ fuel, n ≤ fuel →
    @iterate breaking_backend fuel (stream_of_chat short_request) Created =
      Some (Complete [lit "Hel"; lit "lo"; lit "Error: boom"]).
Proof.
  refine (proj1 (@backend_failure_in_band breaking_backend short_request
    [content_chunk (lit "Hel"); content_chunk (lit "lo")] (lit "boom") _)).
  apply fails_mid_stream.
Defined.

(** C4. A message list of more than 20 entries reaches the backend as its
    last 20 entries, in their order, each as a dictionary with the role
    and the content of the message; a list of at most 20 entries reaches
    it whole, in the same form.  The list concerned is the [messages]
    argument of the call the generator makes on its first resumption. *)
Theorem context_is_last_twenty (request : ChatRequest.t) :
  (20 < length (ChatRequest.messages request) →
     ∃ dropped kept,
       ChatRequest.messages request = dropped ++ kept ∧
       length kept = 20 ∧
       Forall2 carries kept (messages (stream_of_chat request)))
  ∧ (length (ChatRequest.messages request) ≤ 20 →
     Forall2 carries (ChatRequest.messages request)
                     (messages (stream_of_chat request)))
  ∧ (∀ B : Backend,
     @generate B (stream_of_chat request) Created =
       except_Exception
         match B (Registry.get_model_name (ChatRequest.model_key request))
                 (messages (stream_of_chat request)) with
         | CallRaises msg => Propagates msg
         | CallReturns s => resume_loop s
         end).
Proof.
  unfold stream_of_chat, chat_stream, keep_context; simpl.
  rewrite length_fmap.
  split_and!; [intros Hlen|intros Hlen|done].
  - rewrite bool_decide_eq_true_2 by done.
    exists (take (length (ChatRequest.messages request) - 20)
                 (ChatRequest.messages request)),
           (drop (length (ChatRequest.messages request) - 20)
                 (ChatRequest.messages request)).
    split_and!.
    + by rewrite take_drop.
    + rewrite length_drop. lia.
    + rewrite <-fmap_drop. apply carries_fmap.
  - rewrite bool_decide_eq_false_2 by lia. apply carries_fmap.
Qed.

Lemma context_is_last_twenty_witness :
  ∃ dropped kept,
    ChatRequest.messages long_request = dropped ++ kept ∧
    length kept = 20 ∧
    Forall2 carries kept (messages (stream_of_chat long_request)).
Proof.
  apply (proj1 (context_is_last_twenty long_request)). vm_compute. lia.
Defined.

Example long_request_forwarded :
  messages (stream_of_chat long_request) = message_dict <$> numbered 1 20.
Proof. reflexivity. Qed.

(** A stream that, after increments of the declared shape, delivers one
    whose message is no container. *)
Lemma iterate_broken `{!Backend} (r : closure) (chunks : list chunk)
    (inc : increment) (rest : list increment) (failure : option pystr)
    (msg : pystr) (fuel : nat) :
  ollama_chat (model_name r) (messages r)
    = CallReturns
        (raw_stream ((well_formed <$> chunks) ++ inc :: rest) failure) →
  inc !! lit "message" = Some (NotContainer msg) →
  length (omap increment_text chunks) + 2 ≤ fuel →
  iterate fuel r Created
    = Some (Complete (omap increment_text chunks ++ [error_fragment msg])).
Proof.
  intros Hcall Hinc Hfuel. rewrite (iterate_created r _ fuel Hcall).
  replace fuel with (length (omap increment_text chunks)
                     + (fuel - length (omap increment_text chunks))) by lia.
  unfold raw_stream. rewrite foldr_app. cbn [foldr].
  rewrite iterate_chunks.
  destruct (fuel - length (omap increment_text chunks))
    as [|[|fuel']] eqn:Hrest; [lia..|].
  cbn [iterate generate resume_loop]. rewrite Hinc.
  cbn [except_Exception iterate generate fmap option_fmap option_map body_cons].
  by rewrite foldr_body_cons.
Qed.

(** C8. Whatever stream the backend returns: an increment without a
    message, or whose message is a mapping without content, does not fail
    the stream and contributes no fragment, not even an empty one; an
    increment whose message is a mapping with content contributes that
    content as a fragment, in the order of the backend, and then an error
    fragment appears only if the stream itself raises.  An increment whose
    message is no container, such as [None], is not tolerated: it ends the
    response with the fragment "Error: " followed by the text of the
    exception, and the increments after it are not relayed. *)
Theorem missing_content_tolerated `{!Backend} (request : ChatRequest.t)
    (chunks : list chunk) (failure : option pystr) :
  (ollama_chat (model_name (stream_of_chat request))
               (messages (stream_of_chat request)) =
     CallReturns (stream_of chunks failure) →
   ∃ n, ∀ fuel, n ≤ fuel →
     iterate fuel (stream_of_chat request) Created =
       Some (Complete (omap increment_text chunks
                       ++ (error_fragment <$> option_list failure))))
  ∧ (∀ inc rest msg,
       ollama_chat (model_name (stream_of_chat request))
                   (messages (stream_of_chat request)) =
         CallReturns
           (raw_stream ((well_formed <$> chunks) ++ inc :: rest) failure) →
       inc !! lit "message" = Some (NotContainer msg) →
       ∃ n, ∀ fuel, n ≤ fuel →
         iterate fuel (stream_of_chat request) Created =
           Some (Complete (omap increment_text chunks
                           ++ [error_fragment msg]))).
Proof.
  split.
  - intros Hcall.
    exists (length (omap increment_text chunks) + 2). intros fuel Hfuel.
    rewrite (iterate_created _ _ fuel Hcall).
    by rewrite iterate_stream.
  - intros inc rest msg Hcall Hinc.
    exists (length (omap increment_text chunks) + 2). intros fuel Hfuel.
    by apply (iterate_broken _ chunks inc rest failure).
Qed.

Lemma missing_content_tolerated_witness :
  ∃ n, ∀ fuel, n ≤ fuel →
    @iterate sparse_backend fuel (stream_of_chat short_request) Created =
      Some (Complete [lit "Hi"]).
Proof.
  refine (proj1 (@missing_content_tolerated sparse_backend short_request
    [role_only_chunk; content_chunk (lit "Hi"); done_chunk] None) _).
  reflexivity.
Defined.

Example null_message_relayed :
  @iterate null_backend 3 (stream_of_chat short_request) Created =
    Some (Complete
      [lit "Hel"; lit "Error: argument of type 'NoneType' is not iterable"]).
Proof. reflexivity. Qed.

(** The statement of C8 as first given fails on a stream that delivers
    "Hel", an increment whose message is [None], and "lo": the response
    is "Hel" and an error fragment, where the statement has "Hel", the
    empty fragment and "lo". *)
Lemma null_message_not_tolerated :
  ¬ @missing_read_as_empty null_backend short_request
      [well_formed (content_chunk (lit "Hel")); null_message_chunk;
       well_formed (content_chunk (lit "lo"))].
Proof.
  intros Hstated. destruct Hstated as [n Hn]; [reflexivity|].
  specialize (Hn (n + 3) ltac:(lia)).
  rewrite (@iterate_broken null_backend (stream_of_chat short_request)
             [content_chunk (lit "Hel")] null_message_chunk
             [well_formed (content_chunk (lit "lo"))] None
             (lit "argument of type 'NoneType' is not iterable"))
    in Hn; [|reflexivity|reflexivity|].
  - vm_compute in Hn. discriminate.
  - assert (omap increment_text [content_chunk (lit "Hel")] = [lit "Hel"])
      as -> by reflexivity.
    simpl. lia.
Qed.

(** Nor is a missing content read as the empty content: an increment
    whose message has no content contributes no fragment, where an
    increment of empty content contributes the empty fragment. *)
Example missing_content_no_fragment :
  ¬ @missing_read_as_empty role_only_backend short_request
      [well_formed role_only_chunk].
Proof.
  intros Hstated. destruct Hstated as [n Hn]; [reflexivity|].
  specialize (Hn (n + 2) ltac:(lia)).
  rewrite (@iterate_created role_only_backend _
             (stream_of [role_only_chunk] None)) in Hn by reflexivity.
  assert (omap increment_text [role_only_chunk] = []) as Hnone
    by reflexivity.
  rewrite iterate_stream in Hn by (rewrite Hnone; simpl; lia).
  rewrite Hnone in Hn. vm_compute in Hn. discriminate.
Qed.

End RelayFacts.

(** ** The record store: facts *)

Module StoreFacts.
Import Store StoreSpec.

(** *** The directory *)

Lemma lookup_file_None name d : lookup_file name d = None ↔ name ∉ d.*1.
Proof.
  induction d as [|e d IH]; simpl.
  - split; [intros _; apply not_elem_of_nil|done].
  - rewrite not_elem_of_cons, <-IH. case_bool_decide as He.
    + split; [done|]. by intros [? _].
    + split; [by intros ->|by intros [_ ?]].
Qed.

Lemma lookup_overwrite_file name name' f d :
  is_Some (lookup_file name d) →
  lookup_file name' (overwrite_file name f d)
    = if bool_decide (name' = name) then Some f else lookup_file name' d.
Proof.
  induction d as [|e d IH]; simpl; [by intros [? [=]]|].
  destruct (decide (e.1 = name)) as [He|He].
  - intros _. rewrite (bool_decide_eq_true_2 (e.1 = name)) by done. simpl.
    rewrite He. by repeat case_bool_decide; simplify_eq.
  - rewrite (bool_decide_eq_false_2 (e.1 = name)) by done. simpl.
    intros Hd. rewrite (IH Hd).
    by repeat case_bool_decide; simplify_eq.
Qed.

Lemma lookup_file_put name name' f i d :
  lookup_file name d = None →
  lookup_file name' (take i d ++ (name, f) :: drop i d)
    = if bool_decide (name' = name) then Some f else lookup_file name' d.
Proof.
  revert i. induction d as [|e d IH]; intros i Hd.
  - rewrite take_nil, drop_nil. simpl.
    by repeat case_bool_decide; simplify_eq.
  - simpl in Hd. case_bool_decide as He; [done|].
    destruct i as [|i]; simpl.
    + by repeat case_bool_decide; simplify_eq.
    + rewrite (IH i Hd). by repeat case_bool_decide; simplify_eq.
Qed.

Lemma lookup_write_file_cases {host : Host} name name' f d :
  lookup_file name' (write_file name f d)
    = if bool_decide (name' = name) then Some f else lookup_file name' d.
Proof.
  unfold write_file. destruct (lookup_file name d) eqn:Hd.
  - by apply lookup_overwrite_file.
  - by apply lookup_file_put.
Qed.

Lemma lookup_write_file {host : Host} name f d :
  lookup_file name (write_file name f d) = Some f.
Proof. by rewrite lookup_write_file_cases, bool_decide_eq_true_2. Qed.

(** *** Loading *)

(** C7. [get_chat] fails with status 404 exactly when the directory has no
    file [<id>.json]; on a file that parses it returns the parsed contents,
    and on a file that exists but cannot be parsed or read it fails with
    status 500, carrying the text of the underlying exception. *)
Theorem get_chat_not_found_iff (chat_id : pystr) (d : directory) :
  ((∃ detail, get_chat chat_id d = Raised (HTTPException 404 detail))
     ↔ ¬ file_exists chat_id d)
  ∧ (¬ file_exists chat_id d →
     get_chat chat_id d = Raised (HTTPException 404 (lit "Chat not found")))
  ∧ (∀ data, lookup_file (record_name chat_id) d = Some (Parsed data) →
     get_chat chat_id d = Returned data)
  ∧ (∀ msg, lookup_file (record_name chat_id) d = Some (Invalid msg)
            ∨ lookup_file (record_name chat_id) d = Some (Unreadable msg) →
     get_chat chat_id d = Raised (HTTPException 500 msg)).
Proof.
  unfold file_exists, get_chat. rewrite <-lookup_file_None.
  split_and!.
  - destruct (lookup_file _ d) as [[data|msg|msg]|]; split;
      first [by intros [? [=]] | done | by eexists].
  - by intros ->.
  - by intros data ->.
  - by intros msg [-> | ->].
Qed.

Lemma get_chat_not_found_iff_witness :
  get_chat (lit "b") [(lit "a.json", Invalid (lit "Expecting value"))] =
    Raised (HTTPException 404 (lit "Chat not found"))
  ∧ get_chat (lit "a") [(lit "a.json", Invalid (lit "Expecting value"))] =
    Raised (HTTPException 500 (lit "Expecting value")).
Proof.
  split.
  - apply (get_chat_not_found_iff (lit "b")).
    intros Hin%list_elem_of_singleton. vm_compute in Hin. discriminate.
  - apply (get_chat_not_found_iff (lit "a")). left. reflexivity.
Defined.

(** *** Saving *)

(** Keys of the dictionaries are distinct literals. *)
Ltac key_ne := by (vm_compute; intros [=]).
Ltac lookup_key :=
  repeat (rewrite lookup_insert_ne by key_ne);
  first [rewrite lookup_insert_eq | rewrite lookup_singleton_eq].

Lemma user_filter_none msgs :
  no_user msgs → filter (λ m, Message.role m = lit "user") msgs = [].
Proof.
  induction 1 as [|m msgs Hm _ IH]; [done|].
  by rewrite filter_cons_False.
Qed.

Lemma user_filter_first msgs m :
  first_user msgs m →
  ∃ rest, filter (λ m', Message.role m' = lit "user") msgs = m :: rest.
Proof.
  intros (before & after & -> & Hbefore & Hm).
  rewrite filter_app, user_filter_none, filter_cons_True by done.
  by eexists.
Qed.

Lemma chat_title_first_user chat m :
  SaveChatRequest.title chat = None →
  first_user (SaveChatRequest.messages chat) m →
  chat_title chat =
    Some (if bool_decide (50 < length (Message.content m))
          then take 50 (Message.content m) ++ lit "..."
          else Message.content m).
Proof.
  intros Htitle Hfirst. unfold chat_title. rewrite Htitle; simpl.
  destruct (user_filter_first _ _ Hfirst) as [rest ->].
  rewrite bool_decide_eq_true_2; [done|].
  destruct Hfirst as (before & ? & -> & _). by destruct before.
Qed.

Lemma chat_title_no_user chat :
  SaveChatRequest.title chat = None →
  no_user (SaveChatRequest.messages chat) →
  SaveChatRequest.messages chat ≠ [] →
  chat_title chat = Some (lit "Untitled Chat").
Proof.
  intros Htitle Hnone Hmsgs. unfold chat_title. rewrite Htitle; simpl.
  by rewrite bool_decide_eq_true_2, user_filter_none.
Qed.

Lemma chat_title_no_messages chat :
  SaveChatRequest.messages chat = [] →
  chat_title chat = SaveChatRequest.title chat.
Proof.
  intros Hmsgs. unfold chat_title. rewrite Hmsgs.
  by rewrite bool_decide_eq_false_2, andb_false_r by (by intros []).
Qed.

Lemma chat_title_supplied chat t :
  SaveChatRequest.title chat = Some t → t ≠ [] → chat_title chat = Some t.
Proof.
  intros Htitle Ht. unfold chat_title. rewrite Htitle; simpl.
  by destruct t.
Qed.

Lemma reported_title_eq uuid4 now chat d :
  reported_title uuid4 now chat d = Some (opt_json (chat_title chat)).
Proof. unfold reported_title, save_response. by lookup_key. Qed.

Example long_chat_title :
  reported_title sample_uuid sample_now long_chat [] =
    Some (JStr (lit "Hello, how does this work and can you explain it i...")).
Proof. rewrite reported_title_eq. reflexivity. Qed.

Example fifty_chat_title :
  reported_title sample_uuid sample_now fifty_chat [] =
    Some (JStr (lit "Exactly fifty characters long, this sentence is!!!")).
Proof. rewrite reported_title_eq. reflexivity. Qed.

(** C3. When the request has no title: if some message has role "user",
    the title is the content of the first such message when that has at
    most 50 characters, and its first 50 characters followed by "..." when
    it has more; if no message has role "user" and the message list is not
    empty, the title is "Untitled Chat"; if the message list is empty, no
    title is derived and the record carries none. *)
Theorem derived_title_rule (uuid4 now : pystr) (chat : SaveChatRequest.t)
    (d : directory) :
  SaveChatRequest.title chat = None →
  ∃ title,
    reported_title uuid4 now chat d = Some title ∧
    title_rule (λ msgs, msgs ≠ []) chat title ∧
    (SaveChatRequest.messages chat = [] → title = JNull).
Proof.
  intros Htitle. rewrite reported_title_eq. eexists; split; [done|].
  split; [split|].
  - intros m Hfirst. rewrite (chat_title_first_user _ _ Htitle Hfirst).
    split; intros Hlen; simpl.
    + by rewrite bool_decide_eq_false_2 by lia.
    + by rewrite bool_decide_eq_true_2 by lia.
  - intros Hnone Hmsgs. by rewrite chat_title_no_user.
  - intros Hmsgs. by rewrite chat_title_no_messages, Htitle.
Qed.

Lemma derived_title_rule_witness :
  ∃ title,
    reported_title sample_uuid sample_now long_chat [] = Some title ∧
    title_rule (λ msgs, msgs ≠ []) long_chat title ∧
    (SaveChatRequest.messages long_chat = [] → title = JNull).
Proof. apply derived_title_rule. reflexivity. Defined.

(** The rule of C3 as first stated, with the placeholder for every request
    without a user message, fails on a request without messages. *)
Lemma no_messages_no_placeholder :
  ¬ ∃ title,
      reported_title sample_uuid sample_now no_message_chat [] = Some title ∧
      title_rule (λ _, True) no_message_chat title.
Proof.
  intros (title & Hreported & _ & Hplaceholder).
  rewrite reported_title_eq in Hreported. injection Hreported as <-.
  by specialize (Hplaceholder (Forall_nil_2 _) I).
Qed.

(** C10. When the request has no title and the content of its first user
    message has exactly 50 characters, the title is that content, unchanged;
    the title is the first 50 characters followed by "..." only when the
    content has more than 50 characters. *)
Theorem fifty_characters_kept (uuid4 now : pystr) (chat : SaveChatRequest.t)
    (d : directory) (m : Message.t) :
  SaveChatRequest.title chat = None →
  first_user (SaveChatRequest.messages chat) m →
  (length (Message.content m) = 50 →
     reported_title uuid4 now chat d = Some (JStr (Message.content m)))
  ∧ (reported_title uuid4 now chat d =
       Some (JStr (take 50 (Message.content m) ++ lit "..."))
     ↔ 50 < length (Message.content m)).
Proof.
  intros Htitle Hfirst.
  rewrite reported_title_eq, (chat_title_first_user _ _ Htitle Hfirst); simpl.
  split; [intros Hlen; by rewrite bool_decide_eq_false_2 by lia|].
  case_bool_decide as Hlen; [done|]. split; [|lia].
  intros [= Heq]. apply (f_equal length) in Heq.
  rewrite length_app, length_take in Heq. vm_compute (length (lit "...")) in Heq.
  lia.
Qed.

Lemma fifty_characters_kept_witness :
  reported_title sample_uuid sample_now fifty_chat [] =
    Some (JStr (lit "Exactly fifty characters long, this sentence is!!!")).
Proof.
  apply (fifty_characters_kept sample_uuid sample_now fifty_chat []
           (says "user" "Exactly fifty characters long, this sentence is!!!")).
  - reflexivity.
  - exists [], []. split_and!; [reflexivity|constructor|reflexivity].
  - reflexivity.
Defined.

(** *** Requests the store can hold *)

Lemma encodable_no_surrogates s : encodable s = true ↔ no_surrogates s.
Proof.
  unfold encodable, no_surrogates. induction s as [|c s IH]; simpl.
  - split; [constructor|done].
  - rewrite andb_true_iff, orb_true_iff, !N.ltb_lt, IH.
    split; [intros [? ?]; by constructor|by inversion 1].
Qed.

Lemma no_surrogates_app s t :
  no_surrogates s → no_surrogates t → no_surrogates (s ++ t).
Proof. apply Forall_app_2. Qed.

Lemma chat_title_no_surrogates chat t :
  (∀ t, SaveChatRequest.title chat = Some t → no_surrogates t) →
  Forall (λ m, no_surrogates (Message.role m)
               ∧ no_surrogates (Message.content m))
         (SaveChatRequest.messages chat) →
  chat_title chat = Some t → no_surrogates t.
Proof.
  intros Htitle Hmsgs. unfold chat_title.
  destruct (_ && _); [|by apply Htitle].
  destruct (filter _ _) as [|m rest] eqn:Hfilter.
  - intros [= <-]. by apply encodable_no_surrogates.
  - assert (m ∈ SaveChatRequest.messages chat) as Hm.
    { eapply (proj1 (list_elem_of_filter _ _ _)). rewrite Hfilter.
      apply list_elem_of_here. }
    rewrite Forall_forall in Hmsgs. destruct (Hmsgs m Hm) as [_ Hcontent].
    intros [= <-]. case_bool_decide; [|done].
    apply no_surrogates_app; [|by apply encodable_no_surrogates].
    by apply Forall_take.
Qed.

Lemma in_directory_record_name chat_id :
  47%N ∉ chat_id → in_directory (record_name chat_id) = true.
Proof.
  intros Hid. unfold in_directory, record_name.
  rewrite bool_decide_eq_false_2; [done|].
  rewrite elem_of_app. intros [?|Hin]; [done|].
  vm_compute in Hin. repeat (apply elem_of_cons in Hin as [[=]|Hin]).
  by apply elem_of_nil in Hin.
Qed.

Lemma storable_dumpable {host : Host} uuid4 now chat :
  storable uuid4 now chat → dumpable uuid4 now chat = true.
Proof.
  intros (_ & _ & Hid & Hnow & Hmodel & Htitle & Hmsgs). unfold dumpable.
  rewrite !andb_true_iff. split_and!; try by apply encodable_no_surrogates.
  - destruct (chat_title chat) as [t|] eqn:Ht; [|done]. simpl.
    apply encodable_no_surrogates. by apply (chat_title_no_surrogates chat).
  - apply Is_true_true, forallb_True, Forall_forall. intros m Hm.
    rewrite Forall_forall in Hmsgs. destruct (Hmsgs m Hm) as [Hrole Hcontent].
    apply Is_true_true, andb_true_iff.
    by split; apply encodable_no_surrogates.
Qed.

(** A request the store can hold is saved: the save responds and has
    written the record. *)
Lemma save_chat_storable {host : Host} uuid4 now chat d :
  storable uuid4 now chat →
  save_chat uuid4 now chat d
    = Some (Returned (save_response uuid4 chat),
            write_file (record_name (save_chat_id uuid4 chat))
              (Parsed (JObj (record_data uuid4 now chat))) d).
Proof.
  intros Hstorable. pose proof (storable_dumpable _ _ _ Hstorable) as Hdump.
  destruct Hstorable as (Hid & Hopen & _). unfold save_chat.
  by rewrite in_directory_record_name, Hopen, Hdump.
Qed.

(** A save that responds has written the record. *)
Lemma save_chat_returned {host : Host} uuid4 now chat d response d' :
  save_chat uuid4 now chat d = Some (Returned response, d') →
  response = save_response uuid4 chat ∧
  d' = write_file (record_name (save_chat_id uuid4 chat))
         (Parsed (JObj (record_data uuid4 now chat))) d.
Proof.
  unfold save_chat. destruct (in_directory _); [|done].
  destruct (open_error _); [by intros [=]|].
  destruct (dumpable _ _ _); [|by intros [=]]. by intros [= <- <-].
Qed.

Lemma holds_message_json m : holds m (message_json m).
Proof.
  eexists. split; [reflexivity|]. split_and!; [by lookup_key..|].
  by rewrite dom_insert_L, dom_singleton_L.
Qed.

Lemma record_data_fields uuid4 now chat :
  record_data uuid4 now chat !! lit "id"
    = Some (JStr (save_chat_id uuid4 chat)) ∧
  record_data uuid4 now chat !! lit "title"
    = Some (opt_json (chat_title chat)) ∧
  record_data uuid4 now chat !! lit "model"
    = Some (JStr (SaveChatRequest.model chat)) ∧
  record_data uuid4 now chat !! lit "timestamp" = Some (JStr now) ∧
  record_data uuid4 now chat !! lit "messages"
    = Some (JArr (message_json <$> SaveChatRequest.messages chat)) ∧
  dom (record_data uuid4 now chat)
    = {[ lit "id"; lit "title"; lit "model"; lit "timestamp";
         lit "messages" ]}.
Proof.
  unfold record_data. split_and!; [by lookup_key..|].
  by rewrite !dom_insert_L, dom_singleton_L.
Qed.

Lemma save_chat_id_supplied uuid4 chat i :
  SaveChatRequest.id chat = Some i → i ≠ [] → save_chat_id uuid4 chat = i.
Proof. unfold save_chat_id. intros -> Hi. by destruct i. Qed.

Lemma save_chat_id_minted uuid4 chat :
  SaveChatRequest.id chat = None ∨ SaveChatRequest.id chat = Some [] →
  save_chat_id uuid4 chat = uuid4.
Proof. unfold save_chat_id. by intros [-> | ->]. Qed.

(** Requests of the sample data are checked by evaluation. *)
Ltac sample_storable :=
  split_and!;
  [compute_done | reflexivity | compute_done | compute_done | compute_done
  | intros t [= <-]; compute_done | compute_done].

(** C2. A request the store can hold (an id without path separator, whose
    file the host lets be opened, and strings without surrogate code
    points) is saved, and loading by the id the save reports gives a
    record with the five fields of a chat record in which the messages
    have the roles and contents of those of the request, in their order,
    the model is the one of the request, the id is the one of the request
    when it had a non-empty one, and the title is the one of the request
    when it had a non-empty one; the timestamp, a minted id and a derived
    title are the server's. *)
Theorem save_then_get {host : Host} (uuid4 now : pystr)
    (chat : SaveChatRequest.t) (d : directory) :
  storable uuid4 now chat →
  round_trips (λ t, t ≠ []) uuid4 now chat d.
Proof.
  intros Hstorable.
  destruct (record_data_fields uuid4 now chat)
    as (Hid & Htitle & Hmodel & _ & Hmsgs & Hdom).
  exists (save_response uuid4 chat),
         (write_file (record_name (save_chat_id uuid4 chat))
            (Parsed (JObj (record_data uuid4 now chat))) d),
         (save_chat_id uuid4 chat), (record_data uuid4 now chat),
         (message_json <$> SaveChatRequest.messages chat).
  split_and!.
  - by apply save_chat_storable.
  - unfold save_response. by lookup_key.
  - unfold get_chat. by rewrite lookup_write_file.
  - done.
  - apply Forall2_fmap_r, Forall_Forall2_diag, Forall_forall.
    intros m _. apply holds_message_json.
  - done.
  - intros i Hi Hne. by rewrite Hid, (save_chat_id_supplied _ _ i).
  - intros t Ht Hkept. by rewrite Htitle, (chat_title_supplied _ t).
  - done.
Qed.

Lemma save_then_get_witness :
  @round_trips sample_host (λ t, t ≠ []) sample_uuid sample_now titled_chat
    three_records.
Proof.
  apply save_then_get. sample_storable.
Defined.

Example titled_chat_saved :
  ∃ d',
    @save_chat sample_host sample_uuid sample_now titled_chat []
      = Some (Returned {[ lit "id" := JStr (lit "a");
                          lit "title" := JStr (lit "Greetings") ]}, d') ∧
    get_chat (lit "a") d' =
      Returned (JObj
        {[ lit "id" := JStr (lit "a");
           lit "title" := JStr (lit "Greetings");
           lit "model" := JStr (lit "general");
           lit "timestamp" := JStr sample_now;
           lit "messages" :=
             JArr [ JObj {[ lit "role" := JStr (lit "user");
                            lit "content" := JStr (lit "hi") ]};
                    JObj {[ lit "role" := JStr (lit "assistant");
                            lit "content" := JStr (lit "hello") ]} ] ]}).
Proof. eexists. split; vm_compute; reflexivity. Qed.

Example empty_title_chat_saved :
  ∃ response d' data,
    @save_chat sample_host sample_uuid sample_now empty_title_chat []
      = Some (Returned response, d') ∧
    get_chat (lit "a") d' = Returned (JObj data) ∧
    data !! lit "title" = Some (JStr (lit "hi")).
Proof. eexists _, _, _. split_and!; vm_compute; reflexivity. Qed.

(** A request with a lone surrogate in a message: [json.dump] raises, and
    the file it leaves is not valid JSON. *)
Example surrogate_chat_not_saved :
  @save_chat sample_host sample_uuid sample_now surrogate_chat []
    = Some (Raised (Exception
              (lit "'utf-8' codec can't encode: surrogates not allowed")),
            [(lit "a.json", Invalid (lit "Expecting property name"))]).
Proof. vm_compute. reflexivity. Qed.

(** The statement of C2 as first given, with every supplied title kept,
    fails on a request the store can hold whose title is the empty
    string. *)
Lemma empty_title_replaced :
  ¬ (@storable sample_host sample_uuid sample_now empty_title_chat →
     @round_trips sample_host (λ _, True) sample_uuid sample_now
       empty_title_chat []).
Proof.
  intros Hround.
  destruct Hround
    as (response & d' & chat_id & data & items & Hsave & Hid & Hget & _ & _
        & _ & _ & Htitle & _).
  { sample_storable. }
  specialize (Htitle [] eq_refl I).
  apply save_chat_returned in Hsave as [-> ->].
  vm_compute in Hid. injection Hid as <-.
  vm_compute in Hget. injection Hget as <-.
  vm_compute in Htitle. discriminate.
Qed.

(** *** The order on strings *)

Lemma str_lt_irrefl s : str_lt s s = false.
Proof.
  induction s as [|a s IH]; simpl; [done|].
  by rewrite N.ltb_irrefl, N.eqb_refl, IH.
Qed.

Lemma str_lt_cons a b s t :
  str_lt (a :: s) (b :: t) ↔ (a < b)%N ∨ (a = b ∧ str_lt s t).
Proof.
  simpl. rewrite orb_True, andb_True.
  rewrite <-(N.ltb_lt a b), <-(N.eqb_eq a b), !Is_true_true. done.
Qed.

Lemma str_lt_trans s t u : str_lt s t → str_lt t u → str_lt s u.
Proof.
  revert t u. induction s as [|a s IH]; intros [|b t] [|c u]; try done.
  rewrite !str_lt_cons. intros [?|[-> ?]] [?|[-> ?]]; eauto 6 with lia.
Qed.

Lemma str_lt_total s t : ¬ str_lt s t → ¬ str_lt t s → s = t.
Proof.
  revert t. induction s as [|a s IH]; intros [|b t]; [done| | |].
  - intros Hst _. by destruct Hst.
  - intros _ Hts. by destruct Hts.
  - rewrite !str_lt_cons. intros Hst Hts.
    assert (a = b) as -> by (apply N.le_antisymm; apply N.nlt_ge; tauto).
    f_equal. apply IH; tauto.
Qed.

#[local] Instance str_ge_trans : Transitive str_ge.
Proof.
  intros s t u Hst Htu Hsu. unfold str_ge in *.
  destruct (decide (str_lt t s)) as [Hts|Hts].
  - apply Htu. by apply str_lt_trans with s.
  - apply Htu. by rewrite <-(str_lt_total s t).
Qed.

#[local] Instance str_ge_antisymm : AntiSymm (=) str_ge.
Proof. intros s t Hst Hts. by apply str_lt_total. Qed.

Lemma str_ge_empty t : str_ge [] t → t = [].
Proof. destruct t; [done|]. intros Hge. by destruct Hge. Qed.

(** *** Sorting *)

Lemma insert_desc_perm k x l : insert_desc k x l ≡ₚ (k, x) :: l.
Proof.
  induction l as [|[k' y] l IH]; simpl; [done|].
  destruct (str_lt k k'); [|done].
  by rewrite IH, Permutation_swap.
Qed.

Lemma sort_keyed_perm l : sort_keyed l ≡ₚ l.
Proof.
  induction l as [|[k x] l IH]; simpl; [done|].
  by rewrite insert_desc_perm, IH.
Qed.

Lemma insert_desc_int_perm k x l : insert_desc_int k x l ≡ₚ (k, x) :: l.
Proof.
  induction l as [|[k' y] l IH]; simpl; [done|].
  destruct (k <? k')%Z; [|done].
  by rewrite IH, Permutation_swap.
Qed.

Lemma sort_keyed_int_perm l : sort_keyed_int l ≡ₚ l.
Proof.
  induction l as [|[k x] l IH]; simpl; [done|].
  by rewrite insert_desc_int_perm, IH.
Qed.

Lemma insert_desc_sorted k x l :
  Sorted (λ a b, str_ge a.1 b.1) l →
  Sorted (λ a b, str_ge a.1 b.1) (insert_desc k x l).
Proof.
  induction 1 as [|[k' y] l Hl IH Hhd]; simpl.
  - by repeat constructor.
  - destruct (str_lt k k') eqn:Hlt.
    + constructor; [done|].
      destruct Hhd as [|[k'' z] l' Hge]; simpl.
      * constructor. unfold str_ge; simpl. intros Hgt.
        apply Is_true_true in Hlt.
        pose proof (str_lt_trans _ _ _ Hlt Hgt) as Hkk.
        by rewrite str_lt_irrefl in Hkk.
      * destruct (str_lt k k''); constructor; [done|].
        unfold str_ge; simpl. intros Hgt. apply Is_true_true in Hlt.
        pose proof (str_lt_trans _ _ _ Hlt Hgt) as Hkk.
        by rewrite str_lt_irrefl in Hkk.
    + apply Sorted_cons; [by apply Sorted_cons|].
      apply HdRel_cons. unfold str_ge; simpl. intros Hgt.
      by rewrite Hlt in Hgt.
Qed.

Lemma sort_keyed_sorted l : Sorted (λ a b, str_ge a.1 b.1) (sort_keyed l).
Proof.
  induction l as [|[k x] l IH]; simpl; [constructor|].
  by apply insert_desc_sorted.
Qed.

Lemma sorted_empty_last (stamps : list pystr) :
  Sorted str_ge stamps →
  ∀ i j t, i ≤ j → stamps !! i = Some [] → stamps !! j = Some t → t = [].
Proof.
  intros Hsorted%Sorted_StronglySorted; [|apply _].
  induction Hsorted as [|s stamps _ IH Hall]; intros i j t Hij Hi Hj.
  - by rewrite lookup_nil in Hi.
  - destruct i as [|i], j as [|j]; simpl in *; [congruence| |lia|].
    + injection Hi as ->. apply str_ge_empty.
      rewrite Forall_forall in Hall. by apply Hall, list_elem_of_lookup_2 with j.
    + apply (IH i j); [lia|done..].
Qed.

Lemma sorted_three (stamps : list pystr) (T1 T2 T3 : pystr) :
  Sorted str_ge stamps →
  str_lt T1 T2 → str_lt T2 T3 → stamps ≡ₚ [T1; T2; T3] →
  stamps = [T3; T2; T1].
Proof.
  intros Hsorted H12 H23 Hperm.
  assert (∀ s t, str_lt s t → str_ge t s) as Hge.
  { intros s t Hst Hts. pose proof (str_lt_trans _ _ _ Hst Hts) as Hss.
    by rewrite str_lt_irrefl in Hss. }
  apply (Sorted_unique str_ge); [done| |].
  - repeat first [apply Sorted_cons | apply Sorted_nil
                 | apply HdRel_cons | apply HdRel_nil]; by apply Hge.
  - rewrite Hperm. by rewrite (Permutation_swap T1 T2), (Permutation_swap T1 T3),
      (Permutation_swap T2 T3).
Qed.

(** *** Listing *)

Lemma collect_returned entries acc chats :
  collect entries acc = Returned chats →
  chats = acc ++ omap summary_of entries.
Proof.
  revert acc. induction entries as [|[name f] entries IH]; intros acc; simpl.
  - intros [= <-]. by rewrite app_nil_r.
  - destruct f as [[| | | | |data]|msg|msg]; [done..| |by apply IH|done].
    intros ->%IH. unfold summary_of at 2; simpl. by rewrite <-app_assoc.
Qed.

Lemma collect_lenient entries acc :
  Forall object_or_invalid entries →
  collect entries acc = Returned (acc ++ omap summary_of entries).
Proof.
  intros Hall. revert acc.
  induction Hall as [|[name f] entries Hf _ IH]; intros acc; simpl.
  - by rewrite app_nil_r.
  - destruct f as [[| | | | |data]|msg|msg]; [done..| |by apply IH|done].
    rewrite IH. unfold summary_of at 2; simpl. by rewrite <-app_assoc.
Qed.

Lemma summary_fields name data :
  summary name data !! lit "id"
    = Some (default (JStr (stem name)) (data !! lit "id")) ∧
  summary name data !! lit "title"
    = Some (default (JStr (lit "Untitled")) (data !! lit "title")) ∧
  summary name data !! lit "timestamp"
    = Some (default (JStr (lit "")) (data !! lit "timestamp")) ∧
  summary name data !! lit "model"
    = Some (default (JStr (lit "general")) (data !! lit "model")) ∧
  dom (summary name data)
    = {[ lit "id"; lit "title"; lit "timestamp"; lit "model" ]}.
Proof.
  unfold summary. split_and!; [by lookup_key..|].
  by rewrite !dom_insert_L, dom_singleton_L.
Qed.

Lemma summaries_str_stamp entries :
  Forall str_stamped entries → Forall str_stamp (omap summary_of entries).
Proof.
  induction 1 as [|[name f] entries Hf _ IH]; [constructor|].
  unfold summary_of at 1; cbn [omap list_omap]; simpl.
  destruct f as [[| | | | |data]| |]; try done.
  constructor; [|done].
  unfold str_stamp. rewrite (proj1 (proj2 (proj2 (summary_fields _ _)))).
  unfold str_stamped in Hf; simpl in Hf.
  destruct (data !! lit "timestamp") as [[]|]; naive_solver.
Qed.

Lemma keyed_str_stamp chats :
  Forall str_stamp chats →
  ∃ keyed,
    mapM (λ x, (., x) <$> str_key x) chats = Some keyed ∧
    keyed.*2 = chats ∧
    Forall (λ kx, kx.2 !! lit "timestamp" = Some (JStr kx.1)) keyed.
Proof.
  induction 1 as [|x chats [s Hs] _ (keyed & Hkeyed & Hsnd & Hall)].
  - by exists [].
  - assert (str_key x = Some s) as Hk
      by (unfold str_key, sort_key; by rewrite Hs).
    exists ((s, x) :: keyed). cbn [mapM]. rewrite Hk, Hkeyed.
    split_and!; [done|by rewrite fmap_cons, Hsnd|by constructor].
Qed.

Lemma keyed_snd chats keyed :
  mapM (λ x, (., x) <$> str_key x) chats = Some keyed → keyed.*2 = chats.
Proof.
  rewrite mapM_Some. induction 1 as [|x [k y] chats keyed Hx _ IH]; [done|].
  rewrite fmap_cons. f_equal; [|done].
  by destruct (str_key x); simplify_eq/=.
Qed.

Lemma keyed_int_snd chats keyed :
  mapM (λ x, (., x) <$> int_key x) chats = Some keyed → keyed.*2 = chats.
Proof.
  rewrite mapM_Some. induction 1 as [|x [k y] chats keyed Hx _ IH]; [done|].
  rewrite fmap_cons. f_equal; [|done].
  by destruct (int_key x); simplify_eq/=.
Qed.

Example stem_of_record : stem (lit "a.json") = lit "a".
Proof. reflexivity. Qed.

Example stem_of_dot_json : stem (lit ".json") = lit ".json".
Proof. reflexivity. Qed.

Lemma matches_json_record_name name :
  matches_json name → ∃ s, name = record_name s.
Proof. unfold matches_json. by intros [s ->]%bool_decide_unpack; exists s. Qed.

Section with_sort.
Context `{!KeySort}.

Lemma sort_chats_perm chats sorted :
  sort_chats chats = Returned sorted → sorted ≡ₚ chats.
Proof.
  unfold sort_chats.
  destruct (mapM (λ x, (., x) <$> str_key x) chats) as [keyed|] eqn:Hkeyed.
  - intros [= <-]. unfold sort_desc.
    by rewrite sort_keyed_perm, (keyed_snd _ _ Hkeyed).
  - destruct (mapM (λ x, (., x) <$> int_key x) chats) as [keyed|] eqn:Hints.
    + intros [= <-]. unfold sort_desc_int.
      by rewrite sort_keyed_int_perm, (keyed_int_snd _ _ Hints).
    + case_bool_decide; [by intros [= <-]|apply sort_other_keys_perm].
Qed.

Lemma get_chats_returned d chats :
  get_chats d = Returned chats → chats ≡ₚ omap summary_of (glob_json d).
Proof.
  unfold get_chats.
  destruct (collect _ []) as [chats0|] eqn:Hcollect; [|done].
  apply collect_returned in Hcollect as ->. apply sort_chats_perm.
Qed.

Lemma get_chats_str_stamped d :
  Forall object_or_invalid (glob_json d) →
  Forall str_stamped (glob_json d) →
  ∃ keyed,
    get_chats d = Returned (sort_keyed keyed).*2 ∧
    keyed.*2 = omap summary_of (glob_json d) ∧
    Forall (λ kx, kx.2 !! lit "timestamp" = Some (JStr kx.1)) keyed.
Proof.
  intros Hfiles Hstamps. unfold get_chats.
  rewrite collect_lenient by done; simpl.
  destruct (keyed_str_stamp _ (summaries_str_stamp _ Hstamps))
    as (keyed & Hkeyed & Hsnd & Hall).
  exists keyed. unfold sort_chats. by rewrite Hkeyed.
Qed.

Lemma get_chats_sorted_keyed d chats :
  get_chats d = Returned chats →
  Forall str_stamped (glob_json d) →
  ∃ keyed,
    chats = (sort_keyed keyed).*2 ∧
    Forall (λ kx, kx.2 !! lit "timestamp" = Some (JStr kx.1)) keyed.
Proof.
  unfold get_chats. intros Hget Hstamps.
  destruct (collect _ []) as [chats0|] eqn:Hcollect; [|done].
  apply collect_returned in Hcollect as ->; simpl in Hget.
  destruct (keyed_str_stamp _ (summaries_str_stamp _ Hstamps))
    as (keyed & Hkeyed & _ & Hall).
  exists keyed. unfold sort_chats in Hget. rewrite Hkeyed in Hget.
  by injection Hget as <-.
Qed.
End with_sort.

Lemma keyed_timestamps (keyed : list (pystr * dict)) :
  Forall (λ kx, kx.2 !! lit "timestamp" = Some (JStr kx.1)) keyed →
  (λ c : dict, c !! lit "timestamp") <$> keyed.*2
    = (λ s, Some (JStr s)) <$> keyed.*1.
Proof.
  induction 1 as [|[k x] keyed Hkx _ IH]; [done|].
  rewrite !fmap_cons, IH. by f_equal.
Qed.

Example three_records_glob :
  glob_json three_records =
    [ (lit "b.json", record "2024-05-02T09:00:00");
      (lit "broken.json", Invalid (lit "Expecting value"));
      (lit "c.json", record "2024-05-03T09:00:00");
      (lit "a.json", record "2024-05-01T09:00:00") ].
Proof. reflexivity. Qed.

Example three_records_listed :
  @get_chats str_only three_records = Returned three_listed.
Proof. vm_compute. reflexivity. Qed.

Example bare_record_summary :
  @get_chats str_only bare_record =
    Returned [ {[ lit "id" := JStr (lit "a");
                  lit "title" := JStr (lit "Untitled");
                  lit "timestamp" := JStr (lit "");
                  lit "model" := JStr (lit "general") ]} ].
Proof. vm_compute. reflexivity. Qed.

Example array_file_fails :
  @get_chats str_only [ (lit "a.json", Parsed (JArr [])) ] =
    Raised AttributeError.
Proof. reflexivity. Qed.

(** C5. In a directory where every file matching "*.json" either is not
    valid JSON or holds a JSON object, and where the timestamps present
    are strings, the listing does not fail: the files that are not valid
    JSON are left out, and every file that holds an object is summarised,
    also when it lacks "id", "title", "timestamp" or "model", for which the
    summary has defaults. *)
Theorem listing_is_lenient `{!KeySort} (d : directory) :
  Forall object_or_invalid (glob_json d) →
  Forall str_stamped (glob_json d) →
  lists summary_of d.
Proof.
  intros Hfiles Hstamps.
  destruct (get_chats_str_stamped d Hfiles Hstamps) as (keyed & Hget & _).
  eexists. split; [done|]. by apply get_chats_returned.
Qed.

Lemma listing_is_lenient_witness : @lists str_only summary_of three_records.
Proof.
  apply listing_is_lenient; rewrite three_records_glob; repeat constructor.
Defined.

(** The statement of C5 as first given, with the files that lack a field
    left out, fails on a directory whose one file holds the empty
    object. *)
Lemma bare_record_is_listed :
  ¬ @lists str_only complete_summary_of bare_record.
Proof.
  intros (chats & Hget & Hperm).
  rewrite bare_record_summary in Hget. injection Hget as <-.
  apply Permutation_length in Hperm. vm_compute in Hperm. discriminate.
Qed.

Example numeric_stamps_listed :
  @get_chats str_only numeric_stamps
    = Returned [int_listed "b" 10; int_listed "a" 9].
Proof. vm_compute. reflexivity. Qed.

(** The statement of C6 as first given, for every directory, fails on one
    whose timestamps are the integers 9 and 10: the listing has 10 before
    9, the order of the numbers, while "10" is below "9" as a string. *)
Lemma numeric_stamps_by_value : ¬ @sorted_by_text str_only numeric_stamps.
Proof.
  intros Hsorted.
  destruct (Hsorted _ numeric_stamps_listed) as (stamps & Hstamps & Hdesc).
  vm_compute in Hstamps. injection Hstamps as <-.
  apply Sorted_inv in Hdesc as [_ Hhead]. apply HdRel_inv in Hhead.
  by apply Hhead.
Qed.

(** C6. In a directory where the timestamps present are strings, the
    listing is in descending order of timestamps, compared as strings; a
    summary without timestamp has the empty string, and empty timestamps
    come last; three timestamps T1 < T2 < T3 come in the order T3, T2,
    T1. *)
Theorem listing_is_sorted `{!KeySort} (d : directory) (chats : list dict) :
  get_chats d = Returned chats →
  Forall str_stamped (glob_json d) →
  ∃ stamps : list pystr,
    (λ c : dict, c !! lit "timestamp") <$> chats
      = (λ s, Some (JStr s)) <$> stamps ∧
    Sorted str_ge stamps ∧
    (∀ i j t,
       i ≤ j → stamps !! i = Some [] → stamps !! j = Some t → t = []) ∧
    (∀ T1 T2 T3,
       str_lt T1 T2 → str_lt T2 T3 → stamps ≡ₚ [T1; T2; T3] →
       stamps = [T3; T2; T1]).
Proof.
  intros Hget Hstamps.
  destruct (get_chats_sorted_keyed d chats Hget Hstamps)
    as (keyed & -> & Hall).
  assert (Sorted str_ge (sort_keyed keyed).*1) as Hsorted.
  { apply (Sorted_fmap fst (λ a b : pystr * dict, str_ge a.1 b.1) str_ge);
      [done|apply sort_keyed_sorted]. }
  exists (sort_keyed keyed).*1. split_and!.
  - apply keyed_timestamps. by rewrite sort_keyed_perm.
  - done.
  - by apply sorted_empty_last.
  - intros T1 T2 T3. by apply sorted_three.
Qed.

Lemma listing_is_sorted_witness :
  ∃ stamps : list pystr,
    (λ c : dict, c !! lit "timestamp") <$> three_listed
      = (λ s, Some (JStr s)) <$> stamps ∧
    Sorted str_ge stamps ∧
    (∀ i j t,
       i ≤ j → stamps !! i = Some [] → stamps !! j = Some t → t = []) ∧
    (∀ T1 T2 T3,
       str_lt T1 T2 → str_lt T2 T3 → stamps ≡ₚ [T1; T2; T3] →
       stamps = [T3; T2; T1]).
Proof.
  apply (@listing_is_sorted str_only three_records three_listed).
  - exact three_records_listed.
  - rewrite three_records_glob. repeat constructor.
Defined.

(** C9. Every summary of the listing comes from a file [<s>.json] of the
    directory that holds an object, and has exactly the fields "id",
    "title", "timestamp" and "model": each is the field of the object when
    it has it, and otherwise the stem of the file name, "Untitled", the
    empty string and "general".  So a listed id is either the id the
    object holds, whatever it is, or the name stem of a file of the
    directory. *)
Theorem summaries_have_all_fields `{!KeySort} (d : directory)
    (chats : list dict) (c : dict) :
  get_chats d = Returned chats →
  c ∈ chats →
  ∃ s data,
    (record_name s, Parsed (JObj data)) ∈ d ∧
    c !! lit "id"
      = Some (default (JStr (stem (record_name s))) (data !! lit "id")) ∧
    c !! lit "title"
      = Some (default (JStr (lit "Untitled")) (data !! lit "title")) ∧
    c !! lit "timestamp"
      = Some (default (JStr (lit "")) (data !! lit "timestamp")) ∧
    c !! lit "model"
      = Some (default (JStr (lit "general")) (data !! lit "model")) ∧
    dom c = {[ lit "id"; lit "title"; lit "timestamp"; lit "model" ]}.
Proof.
  intros Hget Hc. rewrite (get_chats_returned d chats Hget) in Hc.
  apply list_elem_of_omap in Hc as ([name f] & Hin & Hsummary).
  apply list_elem_of_filter in Hin as [Hname Hin]; simpl in Hname.
  apply matches_json_record_name in Hname as [s ->].
  unfold summary_of in Hsummary; simpl in Hsummary.
  destruct f as [[| | | | |data]| |]; try done.
  injection Hsummary as <-. exists s, data.
  destruct (summary_fields (record_name s) data)
    as (Hid & Htitle & Hstamp & Hmodel & Hdom).
  by split_and!.
Qed.

Lemma summaries_have_all_fields_witness :
  ∃ s data,
    (record_name s, Parsed (JObj data)) ∈ bare_record ∧
    summary (lit "a.json") ∅ !! lit "id"
      = Some (default (JStr (stem (record_name s))) (data !! lit "id")) ∧
    summary (lit "a.json") ∅ !! lit "title"
      = Some (default (JStr (lit "Untitled")) (data !! lit "title")) ∧
    summary (lit "a.json") ∅ !! lit "timestamp"
      = Some (default (JStr (lit "")) (data !! lit "timestamp")) ∧
    summary (lit "a.json") ∅ !! lit "model"
      = Some (default (JStr (lit "general")) (data !! lit "model")) ∧
    dom (summary (lit "a.json") ∅)
      = {[ lit "id"; lit "title"; lit "timestamp"; lit "model" ]}.
Proof.
  apply (@summaries_have_all_fields str_only bare_record
           [summary (lit "a.json") ∅]).
  - reflexivity.
  - apply list_elem_of_here.
Defined.

(** The statement of C9 as first given, with every listed id naming a
    file, fails on a file [a.json] whose object says its id is "b". *)
Lemma renamed_record_id : ¬ @ids_name_files str_only renamed_record.
Proof.
  intros Hnames.
  destruct (Hnames [summary (lit "a.json") {[ lit "id" := JStr (lit "b") ]}]
              (summary (lit "a.json") {[ lit "id" := JStr (lit "b") ]}))
    as (i & Hi & Hexists); [reflexivity|apply list_elem_of_here|].
  vm_compute in Hi. injection Hi as <-.
  apply list_elem_of_singleton in Hexists. vm_compute in Hexists.
  discriminate.
Qed.

End StoreFacts.

(** ** The model registry: facts *)

Module RegistryFacts.
Import Registry MoreSpec.

(** X1. The key "code" resolves to the coder model; every other key,
    registered or not, resolves to the model of "general". *)
Theorem get_model_name_fallback (key : pystr) :
  get_model_name (lit "code") = lit "qwen2.5-coder:3b"
  ∧ (key ≠ lit "code" →
     get_model_name key = get_model_name (lit "general")
     ∧ get_model_name key = lit "qwen2.5:3b").
Proof.
  split; [reflexivity|]. intros Hcode.
  destruct (decide (key = lit "general")) as [->|Hgeneral]; [by split|].
  assert (MODELS !! key = None) as Hnone.
  { unfold MODELS. rewrite lookup_insert_ne by done.
    by rewrite lookup_singleton_ne. }
  unfold get_model_name. rewrite Hnone. by split.
Qed.

Lemma get_model_name_fallback_witness :
  get_model_name (lit "nonexistent-key") = get_model_name (lit "general")
  ∧ get_model_name (lit "nonexistent-key") = lit "qwen2.5:3b".
Proof.
  apply (get_model_name_fallback (lit "nonexistent-key")).
  vm_compute. discriminate.
Defined.

(** X2. The models [list_models] announces are the registered ones: a key
    is announced exactly when it is registered, and each announced name is
    the one the key resolves to. *)
Theorem list_models_agrees_with_registry :
  (∀ key,
     (∃ e, e ∈ model_entries ∧ e !! lit "key" = Some (JStr key))
     ↔ key ∈ dom MODELS)
  ∧ (∀ e, e ∈ model_entries →
       ∃ key, e !! lit "key" = Some (JStr key) ∧
              e !! lit "name" = Some (JStr (get_model_name key))).
Proof.
  assert (model_entries =
    [ {[ lit "key" := JStr (lit "general");
         lit "name" := JStr (MODELS !!! lit "general");
         lit "label" := JStr (128172%N :: lit " General") ]};
      {[ lit "key" := JStr (lit "code");
         lit "name" := JStr (MODELS !!! lit "code");
         lit "label" := JStr (128187%N :: lit " Code") ]} ]) as ->
    by reflexivity.
  split.
  - intros key. unfold MODELS. rewrite dom_insert_L, dom_singleton_L.
    rewrite elem_of_union, !elem_of_singleton. split.
    + intros (e & [->|[->|[]%elem_of_nil]%elem_of_cons]%elem_of_cons & He);
        vm_compute in He; injection He as <-; auto.
    + intros [->| ->]; eexists.
      * split; [apply list_elem_of_here|reflexivity].
      * split; [apply list_elem_of_further, list_elem_of_here|reflexivity].
  - intros e [->|[->|[]%elem_of_nil]%elem_of_cons]%elem_of_cons.
    + by exists (lit "general").
    + by exists (lit "code").
Qed.

End RegistryFacts.

(** ** The chat relay: further facts *)

Module RelayMore.
Import Relay RelaySpec RelayFacts MoreSpec.

Lemma keep_context_app (older recent : list (gmap pystr pystr)) :
  20 ≤ length recent →
  keep_context (older ++ recent) = keep_context recent.
Proof.
  intros Hlen. destruct older as [|m older]; [done|].
  unfold keep_context. rewrite length_app.
  rewrite bool_decide_eq_true_2 by (simpl; lia).
  rewrite drop_app_ge by lia.
  replace (length (m :: older) + length recent - 20 - length (m :: older))
    with (length recent - 20) by lia.
  case_bool_decide; [done|].
  by replace (length recent - 20) with 0 by lia.
Qed.

(** X3. Messages older than the last twenty have no influence on the
    response: a history with at least 20 messages gives the same generator,
    and so the same fragments from every backend, whatever precedes it. *)
Theorem older_messages_ignored (key : pystr) (older recent : list Message.t) :
  20 ≤ length recent →
  stream_of_chat {| ChatRequest.model_key := key;
                    ChatRequest.messages := older ++ recent |}
    = stream_of_chat {| ChatRequest.model_key := key;
                        ChatRequest.messages := recent |}
  ∧ ∀ (B : Backend) fuel,
      @iterate B fuel
        (stream_of_chat {| ChatRequest.model_key := key;
                           ChatRequest.messages := older ++ recent |}) Created
      = @iterate B fuel
          (stream_of_chat {| ChatRequest.model_key := key;
                             ChatRequest.messages := recent |}) Created.
Proof.
  intros Hlen.
  assert (stream_of_chat {| ChatRequest.model_key := key;
                            ChatRequest.messages := older ++ recent |}
          = stream_of_chat {| ChatRequest.model_key := key;
                              ChatRequest.messages := recent |}) as Heq.
  { unfold stream_of_chat, chat_stream; simpl. f_equal.
    rewrite fmap_app. apply keep_context_app. by rewrite length_fmap. }
  split; [done|]. intros B fuel. by rewrite Heq.
Qed.

Lemma older_messages_ignored_witness :
  stream_of_chat {| ChatRequest.model_key := lit "code";
                    ChatRequest.messages := numbered 0 7 ++ numbered 7 20 |}
    = stream_of_chat {| ChatRequest.model_key := lit "code";
                        ChatRequest.messages := numbered 7 20 |}.
Proof.
  apply (older_messages_ignored (lit "code") (numbered 0 7) (numbered 7 20)).
  vm_compute. lia.
Defined.

(** X4. The latest message of the history always reaches the backend:
    the last of the forwarded dictionaries carries its role and content;
    an empty history forwards an empty list. *)
Theorem latest_message_forwarded (request : ChatRequest.t) :
  match last (ChatRequest.messages request) with
  | Some m =>
      ∃ d, last (messages (stream_of_chat request)) = Some d ∧ carries m d
  | None => messages (stream_of_chat request) = []
  end.
Proof.
  assert (last (messages (stream_of_chat request))
          = message_dict <$> last (ChatRequest.messages request)) as Hlast.
  { unfold stream_of_chat, chat_stream, keep_context; simpl.
    rewrite length_fmap, <-fmap_last.
    case_bool_decide as Hlen; [|done].
    rewrite !last_lookup, lookup_drop, length_drop, length_fmap.
    f_equal. lia. }
  destruct (last (ChatRequest.messages request)) as [m|] eqn:Hm.
  - exists (message_dict m). split; [done|apply carries_message_dict].
  - apply last_None in Hm. unfold stream_of_chat, chat_stream; simpl.
    by rewrite Hm.
Qed.

(** X5. A failure of the backend cannot be told from text: a stream that
    raises an exception with text [msg] after some increments gives the
    consumer the very fragments given by a stream that delivers the same
    increments, then the text "Error: " followed by [msg], and ends. *)
Theorem failure_reads_as_text (B1 B2 : Backend) (request : ChatRequest.t)
    (chunks : list chunk) (msg : pystr) :
  B1 (model_name (stream_of_chat request)) (messages (stream_of_chat request))
    = CallReturns (stream_of chunks (Some msg)) →
  B2 (model_name (stream_of_chat request)) (messages (stream_of_chat request))
    = CallReturns
        (stream_of (chunks ++ [content_chunk (lit "Error: " ++ msg)]) None) →
  ∃ n fragments, ∀ fuel, n ≤ fuel →
    @iterate B1 fuel (stream_of_chat request) Created
      = Some (Complete fragments) ∧
    @iterate B2 fuel (stream_of_chat request) Created
      = Some (Complete fragments).
Proof.
  intros H1 H2.
  exists (length (omap increment_text chunks) + 3),
         (omap increment_text chunks ++ [lit "Error: " ++ msg]).
  intros fuel Hfuel.
  rewrite (@iterate_created B1 _ _ fuel H1), (@iterate_created B2 _ _ fuel H2).
  rewrite !iterate_stream.
  - rewrite omap_app; simpl. rewrite increment_text_content.
    by rewrite app_nil_r.
  - rewrite omap_app, length_app; simpl. rewrite increment_text_content.
    simpl. lia.
  - lia.
Qed.

Lemma failure_reads_as_text_witness :
  ∃ n fragments, ∀ fuel, n ≤ fuel →
    @iterate breaking_backend fuel (stream_of_chat short_request) Created
      = Some (Complete fragments) ∧
    @iterate echo_error_backend fuel (stream_of_chat short_request) Created
      = Some (Complete fragments).
Proof.
  apply (failure_reads_as_text breaking_backend echo_error_backend
           short_request
           [content_chunk (lit "Hel"); content_chunk (lit "lo")] (lit "boom"));
    reflexivity.
Defined.

(** X21. An increment whose message is no container, such as [None],
    ends the response: after the fragments of the increments before it
    comes the text "Error: " followed by the text of the exception the
    test raises, and the increments after it are not relayed. *)
Theorem broken_increment_ends_stream (B : Backend) (request : ChatRequest.t)
    (chunks : list chunk) (inc : increment) (rest : list increment)
    (failure : option pystr) (msg : pystr) :
  B (model_name (stream_of_chat request)) (messages (stream_of_chat request))
    = CallReturns
        (raw_stream ((well_formed <$> chunks) ++ inc :: rest) failure) →
  inc !! lit "message" = Some (NotContainer msg) →
  ∃ n, ∀ fuel, n ≤ fuel →
    @iterate B fuel (stream_of_chat request) Created
      = Some (Complete (omap increment_text chunks ++ [error_fragment msg])).
Proof.
  intros Hcall Hinc.
  exists (length (omap increment_text chunks) + 2). intros fuel Hfuel.
  by apply (@iterate_broken B _ chunks inc rest failure).
Qed.

Lemma broken_increment_ends_stream_witness :
  ∃ n, ∀ fuel, n ≤ fuel →
    @iterate null_backend fuel (stream_of_chat short_request) Created
      = Some (Complete
          (omap increment_text [content_chunk (lit "Hel")]
           ++ [error_fragment
                 (lit "argument of type 'NoneType' is not iterable")])).
Proof.
  apply (broken_increment_ends_stream null_backend short_request
           [content_chunk (lit "Hel")] null_message_chunk
           [well_formed (content_chunk (lit "lo"))] None
           (lit "argument of type 'NoneType' is not iterable"));
    reflexivity.
Defined.

End RelayMore.

(** ** The record store: further facts *)

Module StoreMore.
Import Store StoreSpec StoreFacts MoreSpec.

(** *** Files of the directory *)

Lemma record_name_inj a b : record_name a = record_name b → a = b.
Proof. unfold record_name. apply app_inv_tail. Qed.


Lemma lookup_remove_file name name' d :
  lookup_file name' (remove_file name d)
    = if bool_decide (name' = name) then None else lookup_file name' d.
Proof.
  unfold remove_file. induction d as [|e d IH]; simpl.
  - by case_bool_decide.
  - destruct (decide (e.1 = name)) as [He|He].
    + rewrite filter_cons_False by tauto. rewrite IH.
      case_bool_decide as Hname; [done|].
      by rewrite bool_decide_eq_false_2 by congruence.
    + rewrite filter_cons_True by done. simpl. rewrite IH.
      case_bool_decide as Hname; [|done].
      by rewrite bool_decide_eq_false_2 by congruence.
Qed.



Lemma write_file_new {host : Host} name f d :
  name ∉ d.*1 →
  ∃ before after,
    d = before ++ after ∧ write_file name f d = before ++ (name, f) :: after.
Proof.
  intros Hd%lookup_file_None. unfold write_file. rewrite Hd.
  exists (take (new_file_index name d) d), (drop (new_file_index name d) d).
  by rewrite take_drop.
Qed.


Lemma remove_file_absent name d : name ∉ d.*1 → remove_file name d = d.
Proof.
  unfold remove_file. induction d as [|e d IH]; [done|].
  rewrite fmap_cons, not_elem_of_cons. intros [Hne Hin].
  rewrite filter_cons_True by done. by rewrite IH.
Qed.




Lemma remove_file_put name f before after :
  name ∉ (before ++ after).*1 →
  remove_file name (before ++ (name, f) :: after) = before ++ after.
Proof.
  intros Hnew. pose proof (remove_file_absent name _ Hnew) as Habsent.
  unfold remove_file in *. rewrite filter_app in Habsent.
  rewrite filter_app, filter_cons_False by (simpl; tauto). done.
Qed.

Lemma file_exists_lookup chat_id d :
  file_exists chat_id d ↔ is_Some (lookup_file (record_name chat_id) d).
Proof.
  unfold file_exists. rewrite <-not_eq_None_Some, lookup_file_None.
  destruct (decide (record_name chat_id ∈ d.*1)); tauto.
Qed.

(** *** Deleting *)

(** X6. Deleting a chat whose file exists succeeds with status "success";
    afterwards the file is gone, loading the chat fails with 404, and so
    does deleting it once more. *)
Theorem delete_then_get (chat_id : pystr) (d : directory) :
  file_exists chat_id d →
  (delete_chat chat_id d).1 = Returned {[ lit "status" := JStr (lit "success") ]}
  ∧ ¬ file_exists chat_id (delete_chat chat_id d).2
  ∧ get_chat chat_id (delete_chat chat_id d).2
      = Raised (HTTPException 404 (lit "Chat not found"))
  ∧ (delete_chat chat_id (delete_chat chat_id d).2).1
      = Raised (HTTPException 404 (lit "Chat not found")).
Proof.
  intros [f Hf]%file_exists_lookup. unfold delete_chat at 1 2 3 5.
  rewrite Hf; simpl.
  assert (lookup_file (record_name chat_id)
            (remove_file (record_name chat_id) d) = None) as Hgone
    by (by rewrite lookup_remove_file, bool_decide_eq_true_2).
  split_and!; [done| | |].
  - rewrite file_exists_lookup, Hgone. by intros [? [=]].
  - unfold get_chat. by rewrite Hgone.
  - unfold delete_chat. by rewrite Hgone.
Qed.

Lemma delete_then_get_witness :
  (delete_chat (lit "a") two_files).1
    = Returned {[ lit "status" := JStr (lit "success") ]}
  ∧ ¬ file_exists (lit "a") (delete_chat (lit "a") two_files).2
  ∧ get_chat (lit "a") (delete_chat (lit "a") two_files).2
      = Raised (HTTPException 404 (lit "Chat not found"))
  ∧ (delete_chat (lit "a") (delete_chat (lit "a") two_files).2).1
      = Raised (HTTPException 404 (lit "Chat not found")).
Proof.
  apply delete_then_get. unfold file_exists. vm_compute.
  apply list_elem_of_here.
Defined.

(** X7. Deleting fails with 404 exactly when the chat has no file, and a
    failed deletion leaves the directory as it was. *)
Theorem delete_chat_not_found_iff (chat_id : pystr) (d : directory) :
  ((∃ detail, (delete_chat chat_id d).1 = Raised (HTTPException 404 detail))
     ↔ ¬ file_exists chat_id d)
  ∧ (¬ file_exists chat_id d ↔
     delete_chat chat_id d
       = (Raised (HTTPException 404 (lit "Chat not found")), d)).
Proof.
  rewrite file_exists_lookup. unfold delete_chat.
  destruct (lookup_file _ d) as [f|]; simpl.
  - split; split.
    + by intros [? [=]].
    + intros Hnone. destruct Hnone. by eexists.
    + intros Hnone. destruct Hnone. by eexists.
    + intros [=].
  - split; split.
    + intros _ [? [=]].
    + intros _. by eexists.
    + done.
    + intros _ [? [=]].
Qed.

(** X8. Deleting a chat leaves every other chat as it was. *)
Theorem delete_keeps_others (chat_id other : pystr) (d : directory) :
  other ≠ chat_id →
  get_chat other (delete_chat chat_id d).2 = get_chat other d.
Proof.
  intros Hne. unfold delete_chat.
  destruct (lookup_file (record_name chat_id) d); [|done]. simpl.
  unfold get_chat. rewrite lookup_remove_file.
  rewrite bool_decide_eq_false_2; [done|].
  by intros ?%record_name_inj.
Qed.

Lemma delete_keeps_others_witness :
  get_chat (lit "b") (delete_chat (lit "a") two_files).2
    = get_chat (lit "b") two_files.
Proof. apply delete_keeps_others. vm_compute. discriminate. Defined.

(** *** Saving *)






(** X11. A request the store can hold is saved, and the response of
    [save_chat] describes the stored record: loading by the reported id
    gives a record with that id and the reported title, and with the time
    of this save as timestamp, also when the record existed before.  The
    id is the fresh UUID when the request has no id or an empty one. *)
Theorem response_describes_record {host : Host} (uuid4 now : pystr)
    (chat : SaveChatRequest.t) (d : directory) :
  storable uuid4 now chat →
  ∃ response d' chat_id data,
    save_chat uuid4 now chat d = Some (Returned response, d') ∧
    response !! lit "id" = Some (JStr chat_id) ∧
    response !! lit "id" = reported_id uuid4 now chat d ∧
    response !! lit "title" = reported_title uuid4 now chat d ∧
    get_chat chat_id d' = Returned (JObj data) ∧
    data !! lit "id" = Some (JStr chat_id) ∧
    data !! lit "title" = response !! lit "title" ∧
    data !! lit "timestamp" = Some (JStr now) ∧
    (SaveChatRequest.id chat = None ∨ SaveChatRequest.id chat = Some [] →
       chat_id = uuid4).
Proof.
  intros Hstorable.
  destruct (record_data_fields uuid4 now chat)
    as (Hid & Htitle & _ & Hstamp & _).
  exists (save_response uuid4 chat),
         (write_file (record_name (save_chat_id uuid4 chat))
            (Parsed (JObj (record_data uuid4 now chat))) d),
         (save_chat_id uuid4 chat), (record_data uuid4 now chat).
  split_and!.
  - by apply save_chat_storable.
  - unfold save_response. by lookup_key.
  - reflexivity.
  - reflexivity.
  - unfold get_chat. by rewrite lookup_write_file.
  - done.
  - rewrite Htitle. unfold save_response. by lookup_key.
  - done.
  - apply save_chat_id_minted.
Qed.

Lemma response_describes_record_witness :
  ∃ response d' chat_id data,
    @save_chat sample_host sample_uuid sample_now long_chat two_files
      = Some (Returned response, d') ∧
    response !! lit "id" = Some (JStr chat_id) ∧
    response !! lit "id" = reported_id sample_uuid sample_now long_chat
                             two_files ∧
    response !! lit "title" = reported_title sample_uuid sample_now long_chat
                                two_files ∧
    get_chat chat_id d' = Returned (JObj data) ∧
    data !! lit "id" = Some (JStr chat_id) ∧
    data !! lit "title" = response !! lit "title" ∧
    data !! lit "timestamp" = Some (JStr sample_now) ∧
    (SaveChatRequest.id long_chat = None
       ∨ SaveChatRequest.id long_chat = Some [] →
     chat_id = sample_uuid).
Proof. apply response_describes_record. sample_storable. Defined.

Lemma title_length_bound chat t :
  (SaveChatRequest.title chat = None ∨ SaveChatRequest.title chat = Some []) →
  chat_title chat = Some t → length t ≤ 53.
Proof.
  intros Htitle. unfold chat_title.
  assert (from_option truthy false (SaveChatRequest.title chat) = false)
    as -> by (by destruct Htitle as [-> | ->]).
  simpl. case_bool_decide as Hmsgs.
  - destruct (filter _ _) as [|m rest].
    + intros [= <-]. vm_compute. lia.
    + intros [= <-]. case_bool_decide as Hlen; [|lia].
      rewrite length_app, length_take.
      vm_compute (length (lit "...")). lia.
  - destruct Htitle as [-> | ->]; [done|]. by intros [= <-]; simpl; lia.
Qed.

(** X12. A title that [save_chat] derives, the request having none or the
    empty one, has at most 53 characters. *)
Theorem derived_title_is_short (uuid4 now : pystr) (chat : SaveChatRequest.t)
    (d : directory) (t : pystr) :
  (SaveChatRequest.title chat = None ∨ SaveChatRequest.title chat = Some []) →
  reported_title uuid4 now chat d = Some (JStr t) →
  length t ≤ 53.
Proof.
  intros Htitle. rewrite reported_title_eq. intros [= Ht].
  destruct (chat_title chat) as [t'|] eqn:Hchat; [|done].
  injection Ht as ->. by apply (title_length_bound chat).
Qed.

Lemma derived_title_is_short_witness :
  length (lit "Hello, how does this work and can you explain it i...") ≤ 53.
Proof.
  apply (derived_title_is_short sample_uuid sample_now long_chat []).
  - by left.
  - rewrite reported_title_eq. reflexivity.
Defined.

(** X13. Saving a chat that had no file and then deleting it by the id
    the save reported gives back the directory as it was. *)
Theorem save_then_delete {host : Host} (uuid4 now : pystr)
    (chat : SaveChatRequest.t) (d : directory) (response : dict)
    (d' : directory) (chat_id : pystr) :
  save_chat uuid4 now chat d = Some (Returned response, d') →
  response !! lit "id" = Some (JStr chat_id) →
  ¬ file_exists chat_id d →
  delete_chat chat_id d'
    = (Returned {[ lit "status" := JStr (lit "success") ]}, d).
Proof.
  intros [-> ->]%save_chat_returned Hid Hnew.
  unfold save_response in Hid. rewrite lookup_insert_eq in Hid.
  injection Hid as <-.
  unfold delete_chat. rewrite lookup_write_file. f_equal.
  destruct (write_file_new (record_name (save_chat_id uuid4 chat))
              (Parsed (JObj (record_data uuid4 now chat))) d Hnew)
    as (before & after & -> & ->).
  by apply remove_file_put.
Qed.

Lemma save_then_delete_witness :
  ∃ response d',
    @save_chat sample_host sample_uuid sample_now long_chat two_files
      = Some (Returned response, d') ∧
    delete_chat sample_uuid d'
      = (Returned {[ lit "status" := JStr (lit "success") ]}, two_files).
Proof.
  eexists _, _. split; [reflexivity|].
  eapply (@save_then_delete sample_host sample_uuid sample_now long_chat
            two_files).
  - reflexivity.
  - reflexivity.
  - unfold file_exists. vm_compute.
    intros [[=]|[[=]|[]%elem_of_nil]%elem_of_cons]%elem_of_cons.
Defined.

(** X20. An unencodable message costs the stored chat: when a message of
    the request has a surrogate code point in its content, and the host
    lets the file be opened, the save raises, and the file of the chat,
    whatever it held before, is left invalid, so that loading the chat
    fails with status 500. *)
Theorem failed_save_leaves_invalid_file {host : Host} (uuid4 now : pystr)
    (chat : SaveChatRequest.t) (d : directory) (m : Message.t) :
  47%N ∉ save_chat_id uuid4 chat →
  open_error (record_name (save_chat_id uuid4 chat)) = None →
  m ∈ SaveChatRequest.messages chat →
  ¬ no_surrogates (Message.content m) →
  ∃ msg msg' d',
    save_chat uuid4 now chat d = Some (Raised (Exception msg), d') ∧
    lookup_file (record_name (save_chat_id uuid4 chat)) d'
      = Some (Invalid msg') ∧
    get_chat (save_chat_id uuid4 chat) d' = Raised (HTTPException 500 msg').
Proof.
  intros Hid Hopen Hm Hcontent.
  assert (dumpable uuid4 now chat = false) as Hdump.
  { unfold dumpable. apply andb_false_iff. right.
    apply not_true_iff_false. intros Hall%Is_true_true%forallb_True.
    rewrite Forall_forall in Hall. specialize (Hall m Hm).
    apply andb_True in Hall as [_ Hc].
    by apply Hcontent, encodable_no_surrogates, Is_true_true. }
  eexists _, _, _. unfold save_chat.
  rewrite in_directory_record_name, Hopen, Hdump by done.
  split_and!; [reflexivity|apply lookup_write_file|].
  unfold get_chat. by rewrite lookup_write_file.
Qed.

Lemma failed_save_leaves_invalid_file_witness :
  ∃ msg msg' d',
    @save_chat sample_host sample_uuid sample_now surrogate_chat two_files
      = Some (Raised (Exception msg), d') ∧
    lookup_file (record_name (save_chat_id sample_uuid surrogate_chat)) d'
      = Some (Invalid msg') ∧
    get_chat (save_chat_id sample_uuid surrogate_chat) d'
      = Raised (HTTPException 500 msg').
Proof.
  apply (@failed_save_leaves_invalid_file sample_host sample_uuid sample_now
           surrogate_chat two_files
           {| Message.role := lit "user";
              Message.content := lit "hi" ++ [55296%N] |}).
  - compute_done.
  - reflexivity.
  - apply list_elem_of_here.
  - compute_done.
Defined.

(** *** Listing *)


Lemma collect_app l1 l2 acc :
  collect (l1 ++ l2) acc =
    match collect l1 acc with
    | Returned chats => collect l2 chats
    | Raised e => Raised e
    end.
Proof.
  revert acc. induction l1 as [|[name f] l1 IH]; intros acc; [done|].
  rewrite <-app_comm_cons.
  destruct f as [[| | | | |data]|msg|msg]; simpl; try done; apply IH.
Qed.

Section with_sort.
Context `{!KeySort}.


(** X15. Files whose name does not match "*.json" and files that are not
    valid JSON are as good as absent for the listing: it is the listing of
    the directory without them, whatever else they are. *)
Theorem listing_ignores_other_files (d1 d2 : directory) (name : pystr)
    (f : file) :
  ¬ matches_json name ∨ (∃ msg, f = Invalid msg) →
  get_chats (d1 ++ (name, f) :: d2) = get_chats (d1 ++ d2).
Proof.
  intros Hskip. unfold get_chats, glob_json.
  rewrite !filter_app. destruct (decide (matches_json name)) as [Hname|Hname].
  - destruct Hskip as [?|[msg ->]]; [done|].
    rewrite filter_cons_True by done. by rewrite !collect_app.
  - by rewrite filter_cons_False.
Qed.

(** X16. One unexpected file breaks the whole listing: when the first
    matching file that is neither invalid JSON nor a JSON object holds
    another JSON value, the listing raises [AttributeError], and when it
    cannot be read, the exception of the read. *)
Theorem listing_fails_on_unexpected_file (d good rest : directory)
    (name : pystr) (f : file) :
  glob_json d = good ++ (name, f) :: rest →
  Forall object_or_invalid good →
  ¬ object_or_invalid (name, f) →
  get_chats d = Raised (listing_error f).
Proof.
  intros Hglob Hgood Hbad. unfold get_chats.
  rewrite Hglob, collect_app, collect_lenient by done.
  unfold object_or_invalid in Hbad.
  by destruct f as [[| | | | |data]|msg|msg].
Qed.
End with_sort.


Lemma listing_ignores_other_files_witness :
  @get_chats str_only three_records
    = @get_chats str_only
        [ (lit "b.json", record "2024-05-02T09:00:00");
          (lit "broken.json", Invalid (lit "Expecting value"));
          (lit "c.json", record "2024-05-03T09:00:00");
          (lit "a.json", record "2024-05-01T09:00:00") ].
Proof.
  apply (@listing_ignores_other_files str_only
           [ (lit "b.json", record "2024-05-02T09:00:00");
             (lit "broken.json", Invalid (lit "Expecting value"));
             (lit "c.json", record "2024-05-03T09:00:00") ]
           [ (lit "a.json", record "2024-05-01T09:00:00") ]
           (lit "notes.txt") (Unreadable (lit "invalid start byte"))).
  left. vm_compute. exact id.
Defined.

Lemma listing_fails_on_unexpected_file_witness :
  @get_chats str_only array_file = Raised AttributeError.
Proof.
  apply (@listing_fails_on_unexpected_file str_only array_file
           [ (lit "a.json", record "2024-05-01T09:00:00") ] []
           (lit "list.json") (Parsed (JArr []))).
  - reflexivity.
  - repeat constructor.
  - vm_compute. exact id.
Defined.

(** *** The order of the listing *)

#[local] Existing Instance str_ge_trans.

Lemma keyed_str_key (keyed : list (pystr * dict)) :
  Forall (λ kx, kx.2 !! lit "timestamp" = Some (JStr kx.1)) keyed →
  Forall (λ kx, str_key kx.2 = Some kx.1) keyed.
Proof.
  intros Hall. eapply Forall_impl; [done|]. intros [k x] Hkx; simpl in *.
  unfold str_key, sort_key. by rewrite Hkx.
Qed.

Lemma filter_insert_desc (s k : pystr) (x : dict) (l : list (pystr * dict)) :
  filter (λ kx : pystr * dict, kx.1 = s) (insert_desc k x l)
    = if bool_decide (k = s)
      then (k, x) :: filter (λ kx : pystr * dict, kx.1 = s) l
      else filter (λ kx : pystr * dict, kx.1 = s) l.
Proof.
  induction l as [|[k' y] l IH]; cbn [insert_desc].
  - case_bool_decide; [by rewrite filter_cons_True|by rewrite filter_cons_False].
  - destruct (str_lt k k') eqn:Hlt.
    + destruct (decide (k' = s)) as [->|Hk'].
      * assert (k ≠ s) as Hk.
        { intros ->. by rewrite str_lt_irrefl in Hlt. }
        rewrite !(filter_cons_True _ (s, y)) by done.
        rewrite IH. by rewrite bool_decide_eq_false_2.
      * rewrite !(filter_cons_False _ (k', y)) by done. apply IH.
    + case_bool_decide; [by rewrite filter_cons_True|by rewrite filter_cons_False].
Qed.

(** The sort is stable: elements of one key keep their order. *)
Lemma sort_keyed_stable (s : pystr) (l : list (pystr * dict)) :
  filter (λ kx : pystr * dict, kx.1 = s) (sort_keyed l)
    = filter (λ kx : pystr * dict, kx.1 = s) l.
Proof.
  induction l as [|[k x] l IH]; [done|]. cbn [sort_keyed foldr].
  fold (sort_keyed l). rewrite filter_insert_desc, IH; simpl.
  case_bool_decide; [by rewrite filter_cons_True|by rewrite filter_cons_False].
Qed.

Lemma filter_keyed (s : pystr) (l : list (pystr * dict)) :
  Forall (λ kx, str_key kx.2 = Some kx.1) l →
  filter (λ c, str_key c = Some s) l.*2
    = (filter (λ kx : pystr * dict, kx.1 = s) l).*2.
Proof.
  induction 1 as [|[k x] l Hkx _ IH]; [done|]. simpl in Hkx.
  rewrite fmap_cons. destruct (decide (k = s)) as [->|Hk].
  - rewrite !filter_cons_True by done. by rewrite fmap_cons, IH.
  - rewrite !filter_cons_False; [done|done|]. simpl. rewrite Hkx. congruence.
Qed.

Section with_sort.
Context `{!KeySort}.

Lemma get_chats_keyed d chats :
  get_chats d = Returned chats →
  Forall str_stamped (glob_json d) →
  ∃ keyed,
    chats = (sort_keyed keyed).*2 ∧
    keyed.*2 = omap summary_of (glob_json d) ∧
    Forall (λ kx, kx.2 !! lit "timestamp" = Some (JStr kx.1)) keyed.
Proof.
  unfold get_chats. intros Hget Hstamps.
  destruct (collect _ []) as [chats0|] eqn:Hcollect; [|done].
  apply collect_returned in Hcollect as ->; simpl in Hget.
  destruct (keyed_str_stamp _ (summaries_str_stamp _ Hstamps))
    as (keyed & Hkeyed & Hsnd & Hall).
  exists keyed. unfold sort_chats in Hget. rewrite Hkeyed in Hget.
  by injection Hget as <-.
Qed.

(** X17. Chats with the same timestamp are listed in the order in which
    the directory enumerates their files. *)
Theorem equal_timestamps_keep_order (d : directory) (chats : list dict)
    (s : pystr) :
  get_chats d = Returned chats →
  Forall str_stamped (glob_json d) →
  filter (λ c, str_key c = Some s) chats
    = filter (λ c, str_key c = Some s) (omap summary_of (glob_json d)).
Proof.
  intros Hget Hstamps.
  destruct (get_chats_keyed d chats Hget Hstamps) as (keyed & -> & <- & Hall).
  apply keyed_str_key in Hall.
  rewrite !filter_keyed; [|done|by rewrite sort_keyed_perm].
  by rewrite sort_keyed_stable.
Qed.
End with_sort.

Lemma equal_timestamps_keep_order_witness :
  ∃ chats,
    @get_chats str_only same_stamp_files = Returned chats ∧
    filter (λ c, str_key c = Some (lit "2024-05-01T09:00:00")) chats
      = filter (λ c, str_key c = Some (lit "2024-05-01T09:00:00"))
          (omap summary_of (glob_json same_stamp_files)).
Proof.
  eexists. split; [vm_compute; reflexivity|].
  apply (@equal_timestamps_keep_order str_only).
  - vm_compute. reflexivity.
  - assert (glob_json same_stamp_files = same_stamp_files) as ->
      by reflexivity.
    repeat constructor.
Defined.

Example same_stamp_files_listed :
  @get_chats str_only same_stamp_files
    = Returned [ listed "x" "2024-05-01T09:00:00";
                 listed "y" "2024-05-01T09:00:00" ].
Proof. vm_compute. reflexivity. Qed.

Lemma keyed_omap (keyed : list (pystr * dict)) :
  Forall (λ kx, str_key kx.2 = Some kx.1) keyed →
  keyed = omap (λ x, (., x) <$> str_key x) keyed.*2
  ∧ keyed.*1 = omap str_key keyed.*2.
Proof.
  induction 1 as [|[k x] keyed Hkx _ [IH1 IH2]]; [done|]. simpl in Hkx.
  rewrite !fmap_cons. cbn [omap list_omap snd fst]. rewrite Hkx; simpl.
  by rewrite <-IH1, <-IH2.
Qed.

Lemma NoDup_fst_inj (l : list (pystr * dict)) (a b : pystr * dict) :
  NoDup l.*1 → a ∈ l → b ∈ l → a.1 = b.1 → a = b.
Proof.
  induction l as [|e l IH]; [by intros _ ?%elem_of_nil|].
  rewrite fmap_cons, NoDup_cons. intros [He Hl].
  rewrite !elem_of_cons. intros [->|Ha] [->|Hb] Hab; [done| | |by apply IH].
  - destruct He. rewrite Hab. by apply (list_elem_of_fmap_2 fst).
  - destruct He. rewrite <-Hab. by apply (list_elem_of_fmap_2 fst).
Qed.

#[local] Instance keyed_ge_trans :
  Transitive (λ a b : pystr * dict, str_ge a.1 b.1).
Proof. intros a b c. apply str_ge_trans. Qed.

Lemma sort_keyed_unique (l1 l2 : list (pystr * dict)) :
  l1 ≡ₚ l2 → NoDup l1.*1 → sort_keyed l1 = sort_keyed l2.
Proof.
  intros Hperm Hkeys.
  apply (Sorted_unique_strong (λ a b : pystr * dict, str_ge a.1 b.1)).
  - intros a b Ha Hb Hab Hba. rewrite sort_keyed_perm in Ha.
    rewrite sort_keyed_perm, <-Hperm in Hb.
    apply (NoDup_fst_inj l1); [done..|]. by apply str_lt_total.
  - apply sort_keyed_sorted.
  - apply sort_keyed_sorted.
  - by rewrite !sort_keyed_perm.
Qed.

Section with_sort.
Context `{!KeySort}.

(** X18. When the timestamps are distinct strings the listing does not
    depend on the order in which the directory enumerates its files. *)
Theorem listing_independent_of_enumeration (d1 d2 : directory) :
  d1 ≡ₚ d2 →
  Forall object_or_invalid (glob_json d1) →
  Forall str_stamped (glob_json d1) →
  NoDup (stamps_of d1) →
  get_chats d1 = get_chats d2.
Proof.
  intros Hperm Hfiles Hstamps Hdistinct.
  assert (glob_json d1 ≡ₚ glob_json d2) as Hglob
    by (unfold glob_json; by rewrite Hperm).
  destruct (get_chats_str_stamped d1 Hfiles Hstamps)
    as (keyed1 & -> & Hsnd1 & Hall1).
  rewrite Hglob in Hfiles, Hstamps.
  destruct (get_chats_str_stamped d2 Hfiles Hstamps)
    as (keyed2 & -> & Hsnd2 & Hall2).
  apply keyed_str_key, keyed_omap in Hall1 as [Hk1 Hfst1].
  apply keyed_str_key, keyed_omap in Hall2 as [Hk2 _].
  do 2 f_equal. apply sort_keyed_unique.
  - rewrite Hk1, Hk2, Hsnd1, Hsnd2. by rewrite Hglob.
  - by rewrite Hfst1, Hsnd1.
Qed.
End with_sort.

Lemma listing_independent_of_enumeration_witness :
  @get_chats str_only three_records
    = @get_chats str_only (reverse three_records).
Proof.
  apply (@listing_independent_of_enumeration str_only).
  - symmetry. apply reverse_Permutation.
  - rewrite three_records_glob. repeat constructor.
  - rewrite three_records_glob. repeat constructor.
  - assert (stamps_of three_records =
            [ lit "2024-05-02T09:00:00"; lit "2024-05-03T09:00:00";
              lit "2024-05-01T09:00:00" ]) as -> by reflexivity.
    repeat (apply NoDup_cons_2;
            [intros Hin; repeat (apply elem_of_cons in Hin as [[=]|Hin]);
             by apply elem_of_nil in Hin|]).
    apply NoDup_nil_2.
Defined.



Section with_sort.
Context `{!KeySort}.

End with_sort.


End StoreMore.
